(** * Streaming completion orchestrator of cherry-studio: model and properties

    A shallow embedding of
    - [services/ModelMessageService.ts]  (strict user/assistant interleaving),
    - [store/messageBlock.ts]            (citation formatting),
    - [providers/AiProvider/OpenAIProvider.ts] ([completions] with its nested
      [isReasoningJustDone], [processToolUses], [processStream], and [check]).

    JavaScript values are modelled as the code uses them: optional fields as
    [option], strings as [string], millisecond clock readings as [Z], arrays as
    lists, the [Set<string>] of seen urls as a [gset string]. *)

From stdpp Require Import base decidable option list strings gmap.
From Stdlib Require Import ZArith Lia.


(** ** JavaScript idioms shared by the three files *)

Module Js.

(** Truthiness of a [string | undefined] value: [undefined] and [''] are falsy. *)
Definition truthy (v : option string) : bool :=
  match v with
  | Some s => negb (String.eqb s "")
  | None => false
  end.

(** [a || b] on [string | undefined] values. *)
Definition or (a b : option string) : option string :=
  if truthy a then a else b.

(** [hay.includes(needle)] *)
Fixpoint includes (needle hay : string) : bool :=
  String.prefix needle hay
  || match hay with
     | EmptyString => false
     | String _ rest => includes needle rest
     end.

(** The two kinds of exception the modelled code can raise or catch. *)
Inductive Exception :=
| Error (message : string)
| TypeError (message : string).

End Js.

(** ** services/ModelMessageService.ts *)

Module ModelMessageService.

(** Roles of [ChatCompletionMessageParam]. *)
Inductive Role := developer | system | user | assistant | tool | function_role.

#[global] Instance Role_eq_dec : EqDecision Role.
Proof. solve_decision. Defined.

Inductive ContentPart :=
| TextPart (text : string)
| ImagePart (url : string).

Inductive Content :=
| Text (text : string)
| Parts (parts : list ContentPart).

Record ChatCompletionMessageParam := {
  role : Role;
  content : Content
}.

Record Model := {
  id : string;
  provider : string
}.

Definition needStrictlyInterleaveUserAndAssistantMessages (model : Model) : bool :=
  String.eqb (id model) "deepseek-reasoner".

(** One iteration of the [for] loop (index [i]) over [messages], with
    [processedMessages] as the array pushed to. *)
Definition interleaveStep (messages : list ChatCompletionMessageParam)
    (processedMessages : list ChatCompletionMessageParam) (i : nat)
  : list ChatCompletionMessageParam :=
  match messages !! i with
  | None => processedMessages
  | Some currentMessage =>
      let sameAsPrevious :=
        (0 <? i)%nat &&
        match messages !! (i - 1)%nat with
        | Some previous => bool_decide (role currentMessage = role previous)
        | None => false
        end in
      let processedMessages :=
        if sameAsPrevious then
          let emptyMessageRole :=
            if bool_decide (role currentMessage = user) then assistant else user in
          processedMessages ++ [ {| role := emptyMessageRole; content := Text "" |} ]
        else processedMessages in
      processedMessages ++ [currentMessage]
  end.

Definition interleaveUserAndAssistantMessages
    (messages : list ChatCompletionMessageParam) : list ChatCompletionMessageParam :=
  if (length messages =? 0)%nat then []
  else foldl (interleaveStep messages) [] (seq 0 (length messages)).

Definition processReqMessages (model : Model)
    (reqMessages : list ChatCompletionMessageParam) : list ChatCompletionMessageParam :=
  if negb (needStrictlyInterleaveUserAndAssistantMessages model) then reqMessages
  else interleaveUserAndAssistantMessages reqMessages.

(** *** The separator rule as the specification words it

    Between two consecutive messages of the same role an empty message is
    placed, of role [assistant] when the repeated role is [user] and of role
    [user] otherwise; nothing else is added or changed. *)

Definition separator (repeated : Role) : ChatCompletionMessageParam :=
  {| role := if bool_decide (repeated = user) then assistant else user;
     content := Text "" |}.

Fixpoint separatedAfter (previous : Role) (messages : list ChatCompletionMessageParam)
  : list ChatCompletionMessageParam :=
  match messages with
  | [] => []
  | m :: rest =>
      (if bool_decide (role m = previous) then [separator (role m)] else [])
      ++ m :: separatedAfter (role m) rest
  end.

Definition separated (messages : list ChatCompletionMessageParam)
  : list ChatCompletionMessageParam :=
  match messages with
  | [] => []
  | m :: rest => m :: separatedAfter (role m) rest
  end.

(** No two neighbours of [l] have the same role. *)
Definition rolesAlternate (l : list ChatCompletionMessageParam) : Prop :=
  ∀ i a b, l !! i = Some a → l !! S i = Some b → role a ≠ role b.

(** No two neighbours of [l] share the role [user] or the role [assistant]. *)
Definition userAssistantAlternate (l : list ChatCompletionMessageParam) : Prop :=
  ∀ i a b, l !! i = Some a → l !! S i = Some b →
    role a = role b → role a ≠ user ∧ role a ≠ assistant.

(** The number of neighbouring pairs of [l] that share their role. *)
Fixpoint repeatsAfter (previous : Role) (l : list ChatCompletionMessageParam) : nat :=
  match l with
  | [] => 0
  | m :: rest =>
      (if bool_decide (role m = previous) then 1 else 0) + repeatsAfter (role m) rest
  end.

Definition repeats (l : list ChatCompletionMessageParam) : nat :=
  match l with
  | [] => 0
  | m :: rest => repeatsAfter (role m) rest
  end.

Definition deepseekReasoner : Model := {| id := "deepseek-reasoner"; provider := "deepseek" |}.

End ModelMessageService.

(** ** store/messageBlock.ts: the citation formatter *)

Module MessageBlock.

(** [GroundingMetadata] of @google/genai, as far as it is read. *)
Record GroundingWeb := { uri : option string; web_title : option string }.
Record GroundingChunk := { web : option GroundingWeb }.
Record GroundingMetadata := { groundingChunks : option (list GroundingChunk) }.

(** OpenAI [ChatCompletionMessage.Annotation]. *)
Record UrlCitation := { citation_url : string; citation_title : option string }.
Record Annotation := { url_citation : UrlCitation }.

(** Zhipu and Hunyuan search results. *)
Record LinkResult := {
  link : option string;
  result_url : option string;
  result_title : option string
}.

(** [WebSearchProviderResponse]. *)
Record WebSearchResult := {
  ws_title : option string;
  ws_content : option string;
  ws_url : option string
}.
Record WebSearchProviderResponse := { ws_results : option (list WebSearchResult) }.

Record KnowledgeReference := {
  sourceUrl : option string;
  kb_content : option string
}.

(** [WebSearchResponse]: the [source] tag of [WebSearchSource] together with
    [results] in the shape the formatter casts it to under that tag.
    [results] itself may be missing ([?.]). *)
Inductive WebSearchResponse :=
| GEMINI (results : option GroundingMetadata)
| OPENAI (results : option (list Annotation))
| OPENROUTER (results : option (list string))
| PERPLEXITY (results : option (list string))
| ZHIPU (results : option (list LinkResult))
| HUNYUAN (results : option (list LinkResult))
| WEBSEARCH (results : option WebSearchProviderResponse).

Record CitationMessageBlock := {
  response : option WebSearchResponse;
  knowledge : option (list KnowledgeReference)
}.

Inductive CitationType := websearch | knowledge_type.

Record Citation := {
  number : nat;
  url : option string;
  title : option string;
  hostname : option string;
  content : option string;
  showFavicon : bool;
  type : CitationType
}.

Definition withNumber (citation : Citation) (n : nat) : Citation :=
  {| number := n;
     url := url citation;
     title := title citation;
     hostname := hostname citation;
     content := content citation;
     showFavicon := showFavicon citation;
     type := type citation |}.

Section Formatter.

(** [new URL(u).hostname]; [None] when the constructor throws. *)
Variable urlHostname : string → option string.

Definition fromGemini (chunk : GroundingChunk) (index : nat) : Citation :=
  let w := web chunk in
  {| number := index + 1;
     url := Some (if Js.truthy (w ≫= uri) then default "" (w ≫= uri) else "");
     title := w ≫= web_title;
     hostname := None;
     content := None;
     showFavicon := false;
     type := websearch |}.

Definition fromOpenAI (a : Annotation) (index : nat) : Citation :=
  let urlCitation := url_citation a in
  let hostname :=
    if Js.truthy (citation_title urlCitation) then None
    else match urlHostname (citation_url urlCitation) with
         | Some h => Some h
         | None => Some (citation_url urlCitation)
         end in
  {| number := index + 1;
     url := Some (citation_url urlCitation);
     title := citation_title urlCitation;
     hostname := hostname;
     content := None;
     showFavicon := true;
     type := websearch |}.

Definition fromUrl (u : string) (index : nat) : Citation :=
  match urlHostname u with
  | Some h =>
      {| number := index + 1; url := Some u; title := None; hostname := Some h;
         content := None; showFavicon := true; type := websearch |}
  | None =>
      {| number := index + 1; url := Some u; title := None; hostname := Some u;
         content := None; showFavicon := true; type := websearch |}
  end.

Definition fromLinkResult (r : LinkResult) (index : nat) : Citation :=
  {| number := index + 1;
     url := Js.or (link r) (result_url r);
     title := result_title r;
     hostname := None;
     content := None;
     showFavicon := true;
     type := websearch |}.

Definition fromWebSearch (r : WebSearchResult) (index : nat) : Citation :=
  {| number := index + 1;
     url := ws_url r;
     title := ws_title r;
     hostname := None;
     content := ws_content r;
     showFavicon := true;
     type := websearch |}.

Definition fromKnowledge (r : KnowledgeReference) (index : nat) : Citation :=
  {| number := index + 1;
     url := sourceUrl r;
     title := sourceUrl r;
     hostname := None;
     content := kb_content r;
     showFavicon := true;
     type := knowledge_type |}.

(** [xs?.map((x, index) => f x index) || []] *)
Definition mapOrEmpty {A} (f : A → nat → Citation) (xs : option (list A)) : list Citation :=
  match xs with
  | Some l => imap (λ index x, f x index) l
  | None => []
  end.

(** Steps 1 to 3 of [formatCitationsFromBlock]: [formattedCitations] as it
    stands before the deduplication. *)
Definition formattedCitations (block : CitationMessageBlock) : list Citation :=
  let web :=
    match response block with
    | None => []
    | Some (GEMINI results) => mapOrEmpty fromGemini (results ≫= groundingChunks)
    | Some (OPENAI results) => mapOrEmpty fromOpenAI results
    | Some (OPENROUTER results) | Some (PERPLEXITY results) => mapOrEmpty fromUrl results
    | Some (ZHIPU results) | Some (HUNYUAN results) => mapOrEmpty fromLinkResult results
    | Some (WEBSEARCH results) => mapOrEmpty fromWebSearch (results ≫= ws_results)
    end in
  match knowledge block with
  | Some (k :: ks) => web ++ mapOrEmpty fromKnowledge (Some (k :: ks))
  | _ => web
  end.

(** The [.filter] callback threaded over the array: [urlSet] is the
    [Set<string>] it reads and extends. *)
Fixpoint filterSeen (urlSet : gset string) (citations : list Citation) : list Citation :=
  match citations with
  | [] => []
  | citation :: rest =>
      match url citation with
      | Some u =>
          if negb (Js.truthy (Some u)) || bool_decide (u ∈ urlSet)
          then filterSeen urlSet rest
          else citation :: filterSeen ({[u]} ∪ urlSet) rest
      | None => filterSeen urlSet rest
      end
  end.

(** The [.map((citation, index) => ({ ...citation, number: index + 1 }))]. *)
Definition renumber (citations : list Citation) : list Citation :=
  imap (λ index citation, withNumber citation (index + 1)) citations.

Definition formatCitationsFromBlock (block : option CitationMessageBlock) : list Citation :=
  match block with
  | None => []
  | Some block => renumber (filterSeen ∅ (formattedCitations block))
  end.

End Formatter.

(** *** Vocabulary of the statements *)

(** A citation's url is present and not the empty string. *)
Definition hasUrl (c : Citation) : Prop := ∃ u, url c = Some u ∧ u ≠ "".

(** [c] and [c'] agree on everything but their number. *)
Definition sameSource (c c' : Citation) : Prop := withNumber c 0 = withNumber c' 0.

(** [cs !! i] is the first citation of [cs] that carries url [u]. *)
Definition firstWithUrl (cs : list Citation) (u : string) (i : nat) (c : Citation) : Prop :=
  cs !! i = Some c ∧ url c = Some u ∧
  ∀ j c', (j < i)%nat → cs !! j = Some c' → url c' ≠ Some u.

Definition perplexityBlock : CitationMessageBlock :=
  {| response := Some (PERPLEXITY (Some ["a.com"; "b.com"; "a.com"]));
     knowledge := None |}.

Definition geminiBlock : CitationMessageBlock :=
  {| response := Some (GEMINI (Some {| groundingChunks := Some
       [ {| web := None |};
         {| web := Some {| uri := Some "g.com"; web_title := Some "G" |} |};
         {| web := Some {| uri := None; web_title := Some "untitled" |} |} ] |}));
     knowledge := None |}.

End MessageBlock.

(** ** providers/AiProvider/OpenAIProvider.ts: [completions] and [check]

    [completions] is modelled from the point where its closures are defined:
    the branch for [assistant.enableGenerateImage], which hands the request
    to [generateImageByChat], and the preparation of the messages come
    before that point and are not part of the model.
    The collaborators it imports ([parseAndCallTools], the link converters,
    the model predicates) and the completion endpoint are a record of
    functions; they are taken not to throw, and the abort signal is left out,
    so the only exceptions of the model are the TypeErrors the code itself
    runs into. *)

Module OpenAIProvider.

Export ModelMessageService.
Import MessageBlock.

Open Scope Z_scope.

(** *** Data *)

Record Usage := {
  prompt_tokens : Z;
  completion_tokens : Z;
  total_tokens : Z
}.

(** [delta] of a streamed choice, with the vendor extensions the code reads. *)
Record Delta := {
  delta_content : option string;
  reasoning_content : option string;
  reasoning : option string;
  thinking : option string;
  annotations : option (list Annotation)
}.

(** One streamed chunk: [delta] is [chunk.choices[0]?.delta] and
    [finish_reason] is [chunk.choices[0]?.finish_reason]; [search_results] is
    [chunk.search_info?.search_results]. *)
Record ChatCompletionChunk := {
  delta : option Delta;
  finish_reason : option string;
  usage : option Usage;
  citations : option (list string);
  web_search : option (list LinkResult);
  search_results : option (list LinkResult)
}.

(** A non-streamed completion. *)
Record ChatCompletionMessage := { message_content : option string }.
Record Choice := { message : option ChatCompletionMessage }.
Record ChatCompletion := {
  choices : list Choice;
  completion_usage : option Usage
}.

(** What one turn of the [for await] loop observes: the chunk, the pause
    flag [window.keyv.get(CHAT_COMPLETION_PAUSED)] and the clock
    [new Date().getTime()]. *)
Record Arrival := {
  paused : bool;
  now : Z;
  chunk : ChatCompletionChunk
}.

(** The value [sdk.chat.completions.create] resolves to. *)
Inductive Upstream :=
| Streamed (arrivals : list Arrival)
| Whole (now : Z) (completion : ChatCompletion).

Definition MCPToolResponse := string.

Record Metrics := {
  metrics_completion_tokens : option Z;
  metrics_time_completion_millsec : Z;
  metrics_time_first_token_millsec : Z;
  metrics_time_thinking_millsec : option Z
}.

(** The chunks handed to [onChunk], named after [ChunkType]. [FROM_TOOLS]
    stands for whatever [parseAndCallTools] reports through [onChunk]. *)
Inductive Chunk :=
| LLM_RESPONSE_CREATED
| THINKING_DELTA (text : string) (thinking_millsec : Z)
| THINKING_COMPLETE (text : string) (thinking_millsec : Z)
| TEXT_DELTA (text : string)
| TEXT_COMPLETE (text : string)
| LLM_WEB_SEARCH_COMPLETE (llm_web_search : WebSearchResponse)
| BLOCK_COMPLETE (usage : option Usage) (metrics : Metrics)
| FROM_TOOLS (responses : list MCPToolResponse).

(** What [await parseAndCallTools(...)] leaves behind: its return value, the
    [toolResponses] array as it mutated it, and what it sent to [onChunk]. *)
Record ToolCalls := {
  toolResults : list ChatCompletionMessageParam;
  updatedResponses : list MCPToolResponse;
  reported : list (list MCPToolResponse)
}.

(** The collaborators imported by the provider. *)
Record Collaborators := {
  parseAndCallTools : string → list MCPToolResponse → nat → ToolCalls;
  createStream : list ChatCompletionMessageParam → list Arrival;
  createCompletion : list ChatCompletionMessageParam → Z * ChatCompletion;
  convertLinks : string → bool → string;
  convertLinksToOpenRouter : string → bool → string;
  convertLinksToZhipu : string → bool → string;
  convertLinksToHunyuan : string → list LinkResult → bool → string;
  isZhipuModel : Model → bool;
  isHunyuanSearchModel : Model → bool
}.

(** What [completions] has computed before it defines its closures: the
    assistant's settings and model, the clock at [start_time_millsec], and
    the converted messages. *)
Record Request := {
  model : Model;
  enableWebSearch : bool;
  webSearchProviderId : option string;
  streamOutput : bool;
  start_time_millsec : Z;
  systemMessage : ChatCompletionMessageParam;
  userMessages : list ChatCompletionMessageParam
}.

Definition isEnabledWebSearch (request : Request) : bool :=
  enableWebSearch request || Js.truthy (webSearchProviderId request).

(** The [let] variables of [completions] captured by its closures, the
    [toolResponses] array, and the chunks given to [onChunk] so far. *)
Record Closure := {
  hasReasoningContent : bool;
  lastChunk : string;
  time_first_token_millsec : Z;
  time_first_token_millsec_delta : Z;
  time_first_content_millsec : Z;
  reqMessages : list ChatCompletionMessageParam;
  toolResponses : list MCPToolResponse;
  sent : list Chunk
}.

(** The [let] variables of one [processStream] call. *)
Record Frame := {
  content : string;
  thinkingContent : string;
  final_time_completion_millsec_delta : Z;
  final_time_thinking_millsec_delta : Z;
  lastUsage : option Usage;
  isFirstChunk : bool;
  isFirstThinkingChunk : bool
}.

Inductive Outcome :=
| Finished (closure : Closure)
| Threw (closure : Closure) (exception : Js.Exception)
| Pending (closure : Closure) (idx : nat).

(** *** Assignments *)

Definition onChunk (c : Chunk) (s : Closure) : Closure :=
  {| hasReasoningContent := hasReasoningContent s; lastChunk := lastChunk s;
     time_first_token_millsec := time_first_token_millsec s;
     time_first_token_millsec_delta := time_first_token_millsec_delta s;
     time_first_content_millsec := time_first_content_millsec s;
     reqMessages := reqMessages s; toolResponses := toolResponses s;
     sent := sent s ++ [c] |}.

Definition setReasoning (has : bool) (last : string) (s : Closure) : Closure :=
  {| hasReasoningContent := has; lastChunk := last;
     time_first_token_millsec := time_first_token_millsec s;
     time_first_token_millsec_delta := time_first_token_millsec_delta s;
     time_first_content_millsec := time_first_content_millsec s;
     reqMessages := reqMessages s; toolResponses := toolResponses s;
     sent := sent s |}.

Definition setFirstToken (t d : Z) (s : Closure) : Closure :=
  {| hasReasoningContent := hasReasoningContent s; lastChunk := lastChunk s;
     time_first_token_millsec := t;
     time_first_token_millsec_delta := d;
     time_first_content_millsec := time_first_content_millsec s;
     reqMessages := reqMessages s; toolResponses := toolResponses s;
     sent := sent s |}.

Definition setFirstContent (t : Z) (s : Closure) : Closure :=
  {| hasReasoningContent := hasReasoningContent s; lastChunk := lastChunk s;
     time_first_token_millsec := time_first_token_millsec s;
     time_first_token_millsec_delta := time_first_token_millsec_delta s;
     time_first_content_millsec := t;
     reqMessages := reqMessages s; toolResponses := toolResponses s;
     sent := sent s |}.

Definition setMessages (msgs : list ChatCompletionMessageParam)
    (responses : list MCPToolResponse) (s : Closure) : Closure :=
  {| hasReasoningContent := hasReasoningContent s; lastChunk := lastChunk s;
     time_first_token_millsec := time_first_token_millsec s;
     time_first_token_millsec_delta := time_first_token_millsec_delta s;
     time_first_content_millsec := time_first_content_millsec s;
     reqMessages := msgs; toolResponses := responses;
     sent := sent s |}.

Definition setBuffers (text thinkingText : string) (f : Frame) : Frame :=
  {| content := text; thinkingContent := thinkingText;
     final_time_completion_millsec_delta := final_time_completion_millsec_delta f;
     final_time_thinking_millsec_delta := final_time_thinking_millsec_delta f;
     lastUsage := lastUsage f;
     isFirstChunk := isFirstChunk f; isFirstThinkingChunk := isFirstThinkingChunk f |}.

Definition setFlags (firstChunk firstThinkingChunk : bool) (f : Frame) : Frame :=
  {| content := content f; thinkingContent := thinkingContent f;
     final_time_completion_millsec_delta := final_time_completion_millsec_delta f;
     final_time_thinking_millsec_delta := final_time_thinking_millsec_delta f;
     lastUsage := lastUsage f;
     isFirstChunk := firstChunk; isFirstThinkingChunk := firstThinkingChunk |}.

Definition setFinals (completion thinkingDelta : Z) (u : option Usage) (f : Frame) : Frame :=
  {| content := content f; thinkingContent := thinkingContent f;
     final_time_completion_millsec_delta := completion;
     final_time_thinking_millsec_delta := thinkingDelta;
     lastUsage := u;
     isFirstChunk := isFirstChunk f; isFirstThinkingChunk := isFirstThinkingChunk f |}.

(** *** The closures of [completions] *)

Section Completions.

Variable request : Request.
Variable sdk : Collaborators.

(** [isReasoningJustDone(delta)]: the answer, and the closure with
    [lastChunk] and [hasReasoningContent] as the call leaves them. *)
Definition isReasoningJustDone (d : option Delta) (s : Closure) : bool * Closure :=
  match d ≫= delta_content with
  | Some text =>
      if negb (Js.truthy (Some text)) then (false, s)
      else
        let combinedChunks := String.append (lastChunk s) text in
        let s := setReasoning (hasReasoningContent s) text s in
        if Js.includes "###Response" combinedChunks || String.eqb text "</think>"
        then (true, s)
        else
          let s :=
            if Js.truthy (d ≫= reasoning_content) || Js.truthy (d ≫= reasoning)
               || Js.truthy (d ≫= thinking)
            then setReasoning true (lastChunk s) s
            else s in
          if hasReasoningContent s then (true, s) else (false, s)
  | None => (false, s)
  end.

(** [delta?.reasoning_content || delta?.reasoning] *)
Definition reasoningContentOf (d : option Delta) : option string :=
  Js.or (d ≫= reasoning_content) (d ≫= reasoning).

(** The first [if] of the loop body: latch the first-token time on the
    first reasoning chunk. *)
Definition latchFirstThinkingToken (a : Arrival) (sf : Closure * Frame) : Closure * Frame :=
  let '(s, f) := sf in
  if (time_first_token_millsec s =? 0) && isFirstThinkingChunk f
     && Js.truthy (reasoningContentOf (delta (chunk a)))
  then (setFirstToken (now a) (now a - start_time_millsec request) s,
        setFlags (isFirstChunk f) false f)
  else (s, f).

(** [if (reasoningContent) { ... }] *)
Definition accumulateThinking (a : Arrival) (sf : Closure * Frame) : Closure * Frame :=
  let '(s, f) := sf in
  match reasoningContentOf (delta (chunk a)) with
  | Some reasoningContent =>
      if Js.truthy (Some reasoningContent) then
        let f := setBuffers (content f) (String.append (thinkingContent f) reasoningContent) f in
        let s := setReasoning true (lastChunk s) s in
        let thinking_time := now a - time_first_token_millsec s in
        (onChunk (THINKING_DELTA reasoningContent thinking_time) s, f)
      else (s, f)
  | None => (s, f)
  end.

(** [if (isReasoningJustDone(delta)) { if (time_first_content_millsec === 0) { ... } }] *)
Definition completeThinking (a : Arrival) (sf : Closure * Frame) : Closure * Frame :=
  let '(s, f) := sf in
  let '(justDone, s) := isReasoningJustDone (delta (chunk a)) s in
  if justDone && (time_first_content_millsec s =? 0) then
    let s := setFirstContent (now a) s in
    let f := setFinals (final_time_completion_millsec_delta f)
               (time_first_content_millsec s - time_first_token_millsec s) (lastUsage f) f in
    let s := onChunk (THINKING_COMPLETE (thinkingContent f)
                        (final_time_thinking_millsec_delta f)) s in
    let f := setBuffers (content f) "" f in
    let f := setFlags (isFirstChunk f) true f in
    (setReasoning false (lastChunk s) s, f)
  else (s, f).

(** The rewriting of [delta.content] under [assistant.enableWebSearch].
    [assistant.model] is taken to be set, so that it is [model]; a chunk of a
    Hunyuan search model is taken to carry [search_info]. *)
Definition convertedContent (c : ChatCompletionChunk) (text : string) (firstChunk : bool)
  : string :=
  if enableWebSearch request then
    if bool_decide (is_Some (delta c ≫= annotations)) then convertLinks sdk text firstChunk
    else if String.eqb (provider (model request)) "openrouter"
         then convertLinksToOpenRouter sdk text firstChunk
    else if isZhipuModel sdk (model request) then convertLinksToZhipu sdk text firstChunk
    else if isHunyuanSearchModel sdk (model request)
         then convertLinksToHunyuan sdk text (default [] (search_results c)) firstChunk
    else text
  else text.

(** [if (delta?.content) { ... }] *)
Definition accumulateText (a : Arrival) (sf : Closure * Frame) : Closure * Frame :=
  let '(s, f) := sf in
  match delta (chunk a) ≫= delta_content with
  | Some text =>
      if Js.truthy (Some text) then
        let text := convertedContent (chunk a) text (isFirstChunk f) in
        let '(s, f) :=
          if isFirstChunk f && (time_first_token_millsec s =? 0)
             && (time_first_token_millsec_delta s =? 0)
          then (setFirstToken (now a) (now a - start_time_millsec request) s,
                setFlags false (isFirstThinkingChunk f) f)
          else (s, f) in
        let f := setBuffers (String.append (content f) text) (thinkingContent f) f in
        (onChunk (TEXT_DELTA text) s, f)
      else (s, f)
  | None => (s, f)
  end.

(** The web-search chunks sent once a finish reason is present. *)
Definition webSearchChunks (c : ChatCompletionChunk) : list Chunk :=
  (match delta c ≫= annotations with
   | Some results => [LLM_WEB_SEARCH_COMPLETE (OPENAI (Some results))]
   | None => []
   end)
  ++ (if String.eqb (provider (model request)) "perplexity" then
        match citations c with
        | Some results => [LLM_WEB_SEARCH_COMPLETE (PERPLEXITY (Some results))]
        | None => []
        end
      else [])
  ++ (if isEnabledWebSearch request && isZhipuModel sdk (model request)
         && bool_decide (finish_reason c = Some "stop")
      then match web_search c with
           | Some results => [LLM_WEB_SEARCH_COMPLETE (ZHIPU (Some results))]
           | None => []
           end
      else [])
  ++ (if isEnabledWebSearch request && isHunyuanSearchModel sdk (model request)
      then match search_results c with
           | Some results => [LLM_WEB_SEARCH_COMPLETE (HUNYUAN (Some results))]
           | None => []
           end
      else []).

(** [if (!isEmpty(finishReason)) { ... }] *)
Definition finishChunk (a : Arrival) (sf : Closure * Frame) : Closure * Frame :=
  let '(s, f) := sf in
  if Js.truthy (finish_reason (chunk a)) then
    let s := onChunk (TEXT_COMPLETE (content f)) s in
    let f := setFinals (now a - start_time_millsec request)
               (final_time_thinking_millsec_delta f)
               (match usage (chunk a) with Some u => Some u | None => lastUsage f end) f in
    (foldl (λ s c, onChunk c s) s (webSearchChunks (chunk a)), f)
  else (s, f).

(** The body of the [for await] loop, after the pause test. *)
Definition processChunk (a : Arrival) (sf : Closure * Frame) : Closure * Frame :=
  finishChunk a (accumulateText a (completeThinking a
    (accumulateThinking a (latchFirstThinkingToken a sf)))).

(** [for await (const chunk of stream) { if (paused) break; ... }] *)
Fixpoint consume (arrivals : list Arrival) (sf : Closure * Frame) : Closure * Frame :=
  match arrivals with
  | [] => sf
  | a :: rest => if paused a then sf else consume rest (processChunk a sf)
  end.

Definition newFrame : Frame :=
  {| content := ""; thinkingContent := "";
     final_time_completion_millsec_delta := 0;
     final_time_thinking_millsec_delta := 0;
     lastUsage := None;
     isFirstChunk := true; isFirstThinkingChunk := true |}.

(** [this.sdk.chat.completions.create({ messages, stream: isSupportStreamOutput(), ... })] *)
Definition create (messages : list ChatCompletionMessageParam) : Upstream :=
  if streamOutput request then Streamed (createStream sdk messages)
  else let '(t, completion) := createCompletion sdk messages in Whole t completion.

(** [parseAndCallTools] and the bookkeeping of its effects. *)
Definition callTools (text : string) (idx : nat) (s : Closure) : ToolCalls * Closure :=
  let calls := parseAndCallTools sdk text (toolResponses s) idx in
  let s := setMessages (reqMessages s) (updatedResponses calls) s in
  (calls, foldl (λ s r, onChunk (FROM_TOOLS r) s) s (reported calls)).

(** The transcript pushed and normalised when tool results came back. *)
Definition extendTranscript (text : string) (calls : ToolCalls) (s : Closure) : Closure :=
  let pushed :=
    reqMessages s
    ++ [ {| role := assistant; ModelMessageService.content := Text text |} ]
    ++ toolResults calls in
  setMessages (processReqMessages (model request) pushed) (toolResponses s) s.

(** [processToolUses(content, idx)], with [processStream] as [recurse]. *)
Definition processToolUses (recurse : Closure → Upstream → nat → Outcome)
    (text : string) (idx : nat) (s : Closure) : Outcome :=
  let '(calls, s) := callTools text idx s in
  if (0 <? length (toolResults calls))%nat then
    let s := extendTranscript text calls s in
    recurse s (create (reqMessages s)) (idx + 1)%nat
  else Finished s.

(** The final [BLOCK_COMPLETE] of a streamed round. *)
Definition blockComplete (s : Closure) (f : Frame) : Chunk :=
  BLOCK_COMPLETE (lastUsage f)
    {| metrics_completion_tokens := completion_tokens <$> lastUsage f;
       metrics_time_completion_millsec := final_time_completion_millsec_delta f;
       metrics_time_first_token_millsec := time_first_token_millsec_delta s;
       metrics_time_thinking_millsec := Some (final_time_thinking_millsec_delta f) |}.

(** The end of [processStream]: the chunk, then the two resets. *)
Definition finishRound (f : Frame) (s : Closure) : Closure :=
  let s := onChunk (blockComplete s f) s in
  setFirstContent 0 (setFirstToken 0 (time_first_token_millsec_delta s) s).

(** The branch of [processStream] taken when [isSupportStreamOutput()] is false. *)
Definition processWhole (t : Z) (completion : ChatCompletion) (s : Closure) : Outcome :=
  let time_completion_millsec := t - start_time_millsec request in
  let finalMetrics :=
    {| metrics_completion_tokens := completion_tokens <$> completion_usage completion;
       metrics_time_completion_millsec := time_completion_millsec;
       metrics_time_first_token_millsec := 0;
       metrics_time_thinking_millsec := None |} in
  match choices completion with
  | [] => Threw s (Js.TypeError "Cannot read properties of undefined (reading 'message')")
  | first :: _ =>
      let text := message first ≫= message_content in
      let s := if Js.truthy text then onChunk (TEXT_COMPLETE (default "" text)) s else s in
      Finished (onChunk (BLOCK_COMPLETE (completion_usage completion) finalMetrics) s)
  end.

(** [processStream(stream, idx)]. The recursion through [processToolUses]
    has no bound in the source; [fuel] counts the rounds this evaluation
    may start, and [Pending s idx] is the round it could not start. *)
Fixpoint processStream (fuel : nat) (s : Closure) (stream : Upstream) (idx : nat) : Outcome :=
  match fuel with
  | O => Pending s idx
  | S fuel =>
      if negb (streamOutput request) then
        match stream with
        | Whole t completion => processWhole t completion s
        | Streamed _ => Threw s (Js.TypeError "Cannot read properties of undefined (reading '0')")
        end
      else
        match stream with
        | Streamed arrivals =>
            let '(s, f) := consume arrivals (s, newFrame) in
            match processToolUses (processStream fuel) (content f) idx s with
            | Finished s => Finished (finishRound f s)
            | Threw s e => Threw s e
            | Pending s k => Pending s k
            end
        | Whole _ _ => Threw s (Js.TypeError "stream is not async iterable")
        end
  end.

Definition contentTruthy (c : Content) : bool :=
  match c with
  | Text text => Js.truthy (Some text)
  | Parts _ => true
  end.

(** The closure variables as [completions] initialises them, with
    [reqMessages] already assembled and normalised. *)
Definition initialClosure : Closure :=
  let assembled :=
    if negb (contentTruthy (ModelMessageService.content (systemMessage request)))
    then userMessages request
    else systemMessage request :: userMessages request in
  {| hasReasoningContent := false; lastChunk := "";
     time_first_token_millsec := 0;
     time_first_token_millsec_delta := 0;
     time_first_content_millsec := 0;
     reqMessages := processReqMessages (model request) assembled;
     toolResponses := [];
     sent := [] |}.

(** [completions], from the assembly of [reqMessages] to the end of
    [processStream(stream, 0)]. *)
Definition completions (fuel : nat) : Outcome :=
  let s := onChunk LLM_RESPONSE_CREATED initialClosure in
  processStream fuel s (create (reqMessages s)) 0.

End Completions.

(** *** [check] *)

Record CheckResult := {
  valid : bool;
  error : option Js.Exception
}.

(** What an awaited call inside the [try] block comes to. *)
Inductive Settled (A : Type) :=
| Resolved (value : A)
| Rejected (reason : Js.Exception).
Arguments Resolved {A} value.
Arguments Rejected {A} reason.

(** [check(model, stream)]; [whole] and [streamed] are what the two
    [sdk.chat.completions.create] calls settle to. *)
Definition check (m : option Model) (stream : bool)
    (whole : Settled (option ChatCompletion))
    (streamed : Settled (list ChatCompletionChunk)) : CheckResult :=
  match m with
  | None => {| valid := false; error := Some (Js.Error "No model found") |}
  | Some _ =>
      if negb stream then
        match whole with
        | Rejected e => {| valid := false; error := Some e |}
        | Resolved None => {| valid := false; error := Some (Js.Error "Empty response") |}
        | Resolved (Some r) =>
            match choices r with
            | [] =>
                {| valid := false;
                   error := Some (Js.TypeError
                     "Cannot read properties of undefined (reading 'message')") |}
            | first :: _ =>
                match message first with
                | None => {| valid := false; error := Some (Js.Error "Empty response") |}
                | Some _ => {| valid := true; error := None |}
                end
            end
        end
      else
        match streamed with
        | Rejected e => {| valid := false; error := Some e |}
        | Resolved chunks =>
            let hasContent :=
              existsb (λ c, Js.truthy (delta c ≫= delta_content)) chunks in
            if hasContent then {| valid := true; error := None |}
            else {| valid := false; error := Some (Js.Error "Empty streaming response") |}
        end
  end.

(** *** Vocabulary of the statements *)

(** A chunk given to [onChunk], reduced to its type and its text. *)
Inductive Label :=
| response_created
| thinking_delta (text : string)
| thinking_complete (text : string)
| text_delta (text : string)
| text_complete (text : string)
| web_search_complete
| block_complete
| from_tools.

Definition labelOf (c : Chunk) : Label :=
  match c with
  | LLM_RESPONSE_CREATED => response_created
  | THINKING_DELTA text _ => thinking_delta text
  | THINKING_COMPLETE text _ => thinking_complete text
  | TEXT_DELTA text => text_delta text
  | TEXT_COMPLETE text => text_complete text
  | LLM_WEB_SEARCH_COMPLETE _ => web_search_complete
  | BLOCK_COMPLETE _ _ => block_complete
  | FROM_TOOLS _ => from_tools
  end.

Definition isBlockComplete (c : Chunk) : bool :=
  match c with BLOCK_COMPLETE _ _ => true | _ => false end.

Definition isThinkingComplete (c : Chunk) : bool :=
  match c with THINKING_COMPLETE _ _ => true | _ => false end.

(** The texts of the [THINKING_DELTA] chunks of a trace, joined in order. *)
Fixpoint thinkingDeltaText (trace : list Chunk) : string :=
  match trace with
  | [] => ""
  | THINKING_DELTA text _ :: rest => String.append text (thinkingDeltaText rest)
  | _ :: rest => thinkingDeltaText rest
  end.

(** The usage snapshots a [for await] loop stores into [lastUsage], in order:
    those of the chunks with a finish reason that arrive before a pause. *)
Fixpoint usageSnapshots (arrivals : list Arrival) : list Usage :=
  match arrivals with
  | [] => []
  | a :: rest =>
      if paused a then []
      else (if Js.truthy (finish_reason (chunk a))
            then match usage (chunk a) with Some u => [u] | None => [] end
            else [])
           ++ usageSnapshots rest
  end.

(** A timestamp that is set ([≠ 0]) in [before] has the same value in [after]. *)
Definition keepsLatched (before after : Closure) : Prop :=
  (time_first_token_millsec before ≠ 0 →
     time_first_token_millsec after = time_first_token_millsec before)
  ∧ (time_first_content_millsec before ≠ 0 →
       time_first_content_millsec after = time_first_content_millsec before).

(** [after] is [before] with a non-empty text appended. *)
Definition extended (before after : string) : Prop :=
  ∃ more, more ≠ "" ∧ after = String.append before more.

(** Chunks of the answer channel: no thinking chunk, no [BLOCK_COMPLETE]. *)
Definition plain (c : Chunk) : Prop :=
  match c with
  | THINKING_DELTA _ _ | THINKING_COMPLETE _ _ | BLOCK_COMPLETE _ _ => False
  | _ => True
  end.

(** How the thinking chunks of one round's [trace] relate to the reasoning
    [buffer]: either no [THINKING_COMPLETE] was sent and the buffer holds the
    texts of all [THINKING_DELTA] chunks, or exactly one was sent, with the
    texts of the deltas before it, and the buffer holds those of the deltas
    after it. *)
Definition thinkingTrace (trace : list Chunk) (buffer : string) : Prop :=
  (filter isThinkingComplete trace = [] ∧ buffer = thinkingDeltaText trace)
  ∨ (∃ pre ms post,
       trace = pre ++ THINKING_COMPLETE (thinkingDeltaText pre) ms :: post
       ∧ filter isThinkingComplete pre = []
       ∧ filter isThinkingComplete post = []
       ∧ buffer = thinkingDeltaText post).

(** The text a chunk adds to the reasoning buffer:
    [delta?.reasoning_content || delta?.reasoning], or nothing. *)
Definition reasoningTextOf (a : Arrival) : string :=
  if Js.truthy (reasoningContentOf (delta (chunk a)))
  then default "" (reasoningContentOf (delta (chunk a)))
  else "".

(** The text a chunk adds to the answer buffer of frame [f]: [delta.content]
    as the link converters leave it, or nothing. *)
Definition answerTextOf (request : Request) (sdk : Collaborators) (a : Arrival) (f : Frame)
  : string :=
  match delta (chunk a) ≫= delta_content with
  | Some text =>
      if Js.truthy (Some text)
      then convertedContent request sdk (chunk a) text (isFirstChunk f)
      else ""
  | None => ""
  end.
(** *** Sample inputs *)

Definition chunkOf (d : option Delta) (finish : option string) (u : option Usage)
  : ChatCompletionChunk :=
  {| delta := d; finish_reason := finish; usage := u;
     citations := None; web_search := None; search_results := None |}.

Definition deltaOf (text reasoningText : option string) : Delta :=
  {| delta_content := text; reasoning_content := None; reasoning := reasoningText;
     thinking := None; annotations := None |}.

Definition onlyReasoning (text : string) : ChatCompletionChunk :=
  chunkOf (Some (deltaOf None (Some text))) None None.

Definition onlyContent (text : string) : ChatCompletionChunk :=
  chunkOf (Some (deltaOf (Some text) None)) None None.

Definition reasoningAndContent (reasoningText text : string) : ChatCompletionChunk :=
  chunkOf (Some (deltaOf (Some text) (Some reasoningText))) None None.

Definition onlyFinish (u : option Usage) : ChatCompletionChunk :=
  chunkOf (Some (deltaOf None None)) (Some "stop") u.

Definition arrive (t : Z) (c : ChatCompletionChunk) : Arrival :=
  {| paused := false; now := t; chunk := c |}.

(** {reasoning:"think1"}, {reasoning:"think2"}, {content:"Answer"}, {finish:true} *)
Definition scenario (t1 t2 t3 t4 : Z) : list Arrival :=
  [ arrive t1 (onlyReasoning "think1"); arrive t2 (onlyReasoning "think2");
    arrive t3 (onlyContent "Answer"); arrive t4 (onlyFinish None) ].

Definition usageOf (n : Z) : Usage :=
  {| prompt_tokens := n; completion_tokens := n; total_tokens := n + n |}.

Definition toolMessage (text : string) : ChatCompletionMessageParam :=
  {| role := user; ModelMessageService.content := Text text |}.

(** Collaborators with identity link converters, whose completion endpoint
    streams [stream (length messages)] and whose tool executor is [tools]. *)
Definition collaborators (tools : string → list MCPToolResponse → nat → ToolCalls)
    (stream : list ChatCompletionMessageParam → list Arrival) : Collaborators :=
  {| parseAndCallTools := tools;
     createStream := stream;
     createCompletion := λ _, (0, {| choices := []; completion_usage := None |});
     convertLinks := λ text _, text;
     convertLinksToOpenRouter := λ text _, text;
     convertLinksToZhipu := λ text _, text;
     convertLinksToHunyuan := λ text _ _, text;
     isZhipuModel := λ _, false;
     isHunyuanSearchModel := λ _, false |}.

Definition noCalls (responses : list MCPToolResponse) : ToolCalls :=
  {| toolResults := []; updatedResponses := responses; reported := [] |}.

Definition oneCall (responses : list MCPToolResponse) : ToolCalls :=
  {| toolResults := [toolMessage "result"];
     updatedResponses := responses ++ ["result"];
     reported := [["result"]] |}.

(** A tool executor that finds nothing to call. *)
Definition neverCalls : string → list MCPToolResponse → nat → ToolCalls :=
  λ _ responses _, noCalls responses.

(** A tool executor that returns one result in every round. *)
Definition alwaysCalls : string → list MCPToolResponse → nat → ToolCalls :=
  λ _ responses _, oneCall responses.

(** A tool executor that returns one result in round 0 only. *)
Definition callsOnce : string → list MCPToolResponse → nat → ToolCalls :=
  λ _ responses idx, if (idx =? 0)%nat then oneCall responses else noCalls responses.

Definition sampleRequest : Request :=
  {| model := {| id := "gpt-4o"; provider := "openai" |};
     enableWebSearch := false;
     webSearchProviderId := None;
     streamOutput := true;
     start_time_millsec := 1000;
     systemMessage := {| role := system; ModelMessageService.content := Text "" |};
     userMessages := [ {| role := user; ModelMessageService.content := Text "hi" |} ] |}.

(** Round 0 (one message sent) thinks, answers and reports usage 7; the
    next round (three messages sent) answers and reports usage 9. *)
Definition twoRounds (messages : list ChatCompletionMessageParam) : list Arrival :=
  if (length messages =? 1)%nat then
    [ arrive 1010 (onlyReasoning "plan"); arrive 1020 (onlyContent "call");
      arrive 1030 (onlyFinish (Some (usageOf 7))) ]
  else
    [ arrive 1040 (onlyContent "done"); arrive 1050 (onlyFinish (Some (usageOf 9))) ].

(** Two chunks that each carry reasoning text and answer text. *)
Definition mixedStream : list Arrival :=
  [ arrive 1010 (reasoningAndContent "a" "b"); arrive 1020 (reasoningAndContent "c" "d") ].

(** The endpoint that always streams an answer asking for a tool. *)
Definition callStream (_ : list ChatCompletionMessageParam) : list Arrival :=
  [ arrive 1010 (onlyContent "call"); arrive 1020 (onlyFinish None) ].

Definition loopingSdk : Collaborators := collaborators alwaysCalls callStream.
Definition twoRoundSdk : Collaborators := collaborators callsOnce twoRounds.
Definition quietSdk : Collaborators :=
  collaborators neverCalls (λ _, scenario 1010 1020 1030 1040).

(** The closure when [processStream(stream, 0)] is called. *)
Definition started (request : Request) : Closure :=
  onChunk LLM_RESPONSE_CREATED (initialClosure request).

Definition afterFirstMixed : Closure * Frame :=
  consume sampleRequest quietSdk [arrive 1010 (reasoningAndContent "a" "b")]
    (started sampleRequest, newFrame).

Definition afterSecondMixed : Closure * Frame :=
  processChunk sampleRequest quietSdk (arrive 1020 (reasoningAndContent "c" "d"))
    afterFirstMixed.

End OpenAIProvider.

(** ** The formatting helpers imported as [utils/formats] *)

Module Formats.

Import Stdlib.Strings.Ascii.
Import ModelMessageService.

(** A string as the list of its code units. *)
Definition dollar : ascii := "$"%char.
Definition backslash : ascii := "\"%char.
Definition space : ascii := " "%char.

(** [c >= '0' && c <= '9'] *)
Definition isDigit (c : ascii) : bool :=
  (48 <=? nat_of_ascii c)%nat && (nat_of_ascii c <=? 57)%nat.

(** One iteration of the loop of [escapeDollarNumber] (index [i]) over
    [text], with [escapedText] as the string appended to. *)
Definition escapeStep (text escapedText : list ascii) (i : nat) : list ascii :=
  match text !! i with
  | None => escapedText
  | Some char =>
      let nextChar := default space (text !! (i + 1)%nat) in
      let char :=
        if Ascii.eqb char dollar && isDigit nextChar then [backslash; dollar] else [char] in
      escapedText ++ char
  end.

Definition escapeDollarNumber (text : list ascii) : list ascii :=
  foldl (escapeStep text) [] (seq 0 (length text)).

(** The number of dollars of [text] that a digit follows. *)
Fixpoint dollarsBeforeDigit (text : list ascii) : nat :=
  match text with
  | [] => 0
  | c :: rest =>
      (if Ascii.eqb c dollar && isDigit (default space (head rest)) then 1 else 0)
      + dollarsBeforeDigit rest
  end.

(** The loop of [escapeDollarNumber] read structurally: what the character
    at the head of [text] contributes, followed by the reading of the rest. *)
Fixpoint escapedFrom (text : list ascii) : list ascii :=
  match text with
  | [] => []
  | c :: rest =>
      (if Ascii.eqb c dollar && isDigit (default space (head rest))
       then [backslash; dollar] else [c])
      ++ escapedFrom rest
  end.

(** What [addImageFileToContents] reads of a message and of its image blocks
    ([findImageBlocks] is imported; its result is part of the message here). *)
Record ImageBlock := {
  generateImage : option (option (list string))
}.

Record Message := {
  message_id : string;
  message_role : Role;
  message_text : string;
  imageBlocks : option (list ImageBlock);
  images : option (list (option string))
}.

(** [messages.findLast(pred)] *)
Definition findLast {A} (pred : A → bool) (l : list A) : option A :=
  head (filter (λ x, pred x = true) (reverse l)).

(** [blocks.map((v) => v.metadata?.generateImage?.images).flat()]: an array
    is spread, a missing one stays as one [undefined] entry. *)
Definition flatImages (blocks : list ImageBlock) : list (option string) :=
  blocks ≫= λ v,
    match generateImage v with
    | Some (Some files) => Some <$> files
    | _ => [None]
    end.

Definition withImages (m : Message) (files : list (option string)) : Message :=
  {| message_id := message_id m; message_role := message_role m;
     message_text := message_text m; imageBlocks := imageBlocks m;
     images := Some files |}.

Definition addImageFileToContents (messages : list Message) : list Message :=
  match findLast (λ m, bool_decide (message_role m = assistant)) messages with
  | None => messages
  | Some lastAssistantMessage =>
      match imageBlocks lastAssistantMessage with
      | None | Some [] => messages
      | Some blocks =>
          if forallb (λ v, negb (bool_decide (is_Some (generateImage v)))) blocks
          then messages
          else
            let imageFiles := flatImages blocks in
            let updatedAssistantMessage := withImages lastAssistantMessage imageFiles in
            (λ message,
               if String.eqb (message_id message) (message_id lastAssistantMessage)
               then updatedAssistantMessage else message) <$> messages
      end
  end.

End Formats.

(** ** queue/KnowledgeQueue.ts: which items are taken up *)

Module KnowledgeQueue.

Open Scope Z_scope.

Inductive ProcessingStatus := pending | processing | completed | failed.

#[global] Instance ProcessingStatus_eq_dec : EqDecision ProcessingStatus.
Proof. solve_decision. Defined.

(** A knowledge item, as far as the queue reads it; [retryCount] is a
    number or missing. *)
Record KnowledgeItem := {
  item_id : string;
  processingStatus : option ProcessingStatus;
  retryCount : option Z
}.

Definition MAX_RETRIES : Z := 1.

(** Truthiness of a [number | undefined] value. *)
Definition truthyNumber (n : option Z) : bool :=
  match n with
  | Some k => negb (k =? 0)
  | None => false
  end.

(** The callback of [base.items.filter] in [checkAllBases] and of
    [base.items.find] in [findProcessableItem]. *)
Definition isProcessable (item : KnowledgeItem) : bool :=
  if bool_decide (processingStatus item = Some failed) then
    negb (truthyNumber (retryCount item))
    || match retryCount item with Some k => k <? MAX_RETRIES | None => false end
  else bool_decide (processingStatus item = Some pending).

(** [findProcessableItem]: the first such item of the base. *)
Definition findProcessableItem (items : list KnowledgeItem) : option KnowledgeItem :=
  head (filter (λ item, isProcessable item = true) items).

(** The first test of [processItem]: the item is skipped, nothing is
    dispatched. *)
Definition reachedMaxRetries (item : KnowledgeItem) : bool :=
  truthyNumber (retryCount item)
  && match retryCount item with Some k => MAX_RETRIES <=? k | None => false end.

(** The payload of [updateItemProcessingStatus]. *)
Record StatusUpdate := {
  update_itemId : string;
  update_status : ProcessingStatus;
  update_retryCount : option Z
}.

(** [(item.retryCount || 0) + 1] *)
Definition nextRetryCount (item : KnowledgeItem) : Z :=
  (if truthyNumber (retryCount item) then default 0 (retryCount item) else 0) + 1.

(** The update [processItem] dispatches first, unless it skips the item. *)
Definition startUpdate (item : KnowledgeItem) : option StatusUpdate :=
  if reachedMaxRetries item then None
  else Some {| update_itemId := item_id item; update_status := processing;
               update_retryCount := Some (nextRetryCount item) |}.

(** The update dispatched in the [catch] block. *)
Definition failureUpdate (item : KnowledgeItem) : StatusUpdate :=
  {| update_itemId := item_id item; update_status := failed;
     update_retryCount := Some (nextRetryCount item) |}.

(** An item that carries the status and the retry count of an update. *)
Definition updated (item : KnowledgeItem) (u : StatusUpdate) : KnowledgeItem :=
  {| item_id := item_id item;
     processingStatus := Some (update_status u);
     retryCount := update_retryCount u |}.

End KnowledgeQueue.

(** ** providers/AiProvider/OpenAIProvider.ts: further methods *)

Module OpenAIProviderMethods.

Import MessageBlock.
Export OpenAIProvider.

Open Scope Z_scope.

Definition newline : string := String (Ascii.ascii_of_nat 10) "".

(** *** [isNotSupportFiles], [extractFileContent], [getMessageParam] *)

Record Provider := {
  provider_id : string;
  isNotSupportArrayContent : option bool
}.

Definition isNotSupportFiles (p : Provider) : bool :=
  match isNotSupportArrayContent p with
  | Some true => true
  | _ => bool_decide (provider_id p ∈ ["deepseek"; "baichuan"; "minimax"; "xirang"])
  end.

(** [FileTypes]: the two members the code names, and the others. *)
Inductive FileTypes := TEXT | DOCUMENT | OTHER_TYPE.

Record FileMetadata := {
  file_id : string;
  ext : string;
  origin_name : string;
  file_type : FileTypes
}.

Record FileBlock := { block_file : option FileMetadata }.
Record ImageMessageBlock := { image_file : option FileMetadata; image_url : option string }.

(** A message as [getMessageParam] sees it: its role, the text
    [getMessageContent] gives, and the blocks [findFileBlocks] and
    [findImageBlocks] find. *)
Record MessageView := {
  view_role : Role;
  view_content : string;
  fileBlocks : list FileBlock;
  imageBlocks : list ImageMessageBlock
}.

(** [[FileTypes.TEXT, FileTypes.DOCUMENT].includes(type)] *)
Definition isTextual (t : FileTypes) : bool :=
  match t with TEXT | DOCUMENT => true | OTHER_TYPE => false end.

Definition divider : string :=
  String.append newline (String.append newline
    (String.append "---" (String.append newline newline))).

Section MessageParam.

(** [window.api.file.read], [String.prototype.trim] and the [data] of
    [window.api.file.base64Image]. *)
Variable readFile : string → string.
Variable trim : string → string.
Variable base64Image : string → string.

Definition extractFileContent (m : MessageView) : string :=
  let textFileBlocks :=
    omap (λ fb, match block_file fb with
               | Some file => if isTextual (file_type file) then Some file else None
               | None => None
               end) (fileBlocks m) in
  foldl (λ text file,
           let fileContent := trim (readFile (String.append (file_id file) (ext file))) in
           let fileNameRow :=
             String.append "file: " (String.append (origin_name file)
               (String.append newline newline)) in
           String.append text (String.append fileNameRow (String.append fileContent divider)))
        "" textFileBlocks.

Definition remappedRole (r : Role) : Role :=
  if bool_decide (r = system) then user else r.

Definition imagePart (isVision : bool) (b : ImageMessageBlock) : list ContentPart :=
  if isVision then
    match image_file b with
    | Some file => [ImagePart (base64Image (String.append (file_id file) (ext file)))]
    | None =>
        match image_url b with
        | Some url =>
            if Js.truthy (Some url) && String.prefix "data:" url then [ImagePart url] else []
        | None => []
        end
    end
  else [].

Definition filePart (b : FileBlock) : list ContentPart :=
  match block_file b with
  | None => []
  | Some file =>
      if isTextual (file_type file) then
        [TextPart (String.append (origin_name file)
           (String.append newline (trim (readFile (String.append (file_id file) (ext file))))))]
      else []
  end.

Definition getMessageParam (p : Provider) (isVision : bool) (m : MessageView)
  : ChatCompletionMessageParam :=
  if bool_decide (fileBlocks m = []) && bool_decide (imageBlocks m = []) then
    {| role := remappedRole (view_role m);
       ModelMessageService.content := Text (view_content m) |}
  else if isNotSupportFiles p then
    {| role := remappedRole (view_role m);
       ModelMessageService.content :=
         Text (String.append (view_content m)
                 (String.append divider (extractFileContent m))) |}
  else
    let parts :=
      (if Js.truthy (Some (view_content m)) then [TextPart (view_content m)] else [])
      ++ (imageBlocks m ≫= imagePart isVision)
      ++ (fileBlocks m ≫= filePart) in
    {| role := remappedRole (view_role m); ModelMessageService.content := Parts parts |}.

End MessageParam.

Definition isImagePart (part : ContentPart) : bool :=
  match part with ImagePart _ => true | TextPart _ => false end.

(** *** [isOpenAIReasoning], [getReasoningEffort] *)

Definition isOpenAIReasoning (m : Model) : bool :=
  String.prefix "o1" (id m) || String.prefix "o3" (id m) || String.prefix "o4" (id m).

(** The model predicates imported from [config/models]. *)
Record ModelPredicates := {
  isReasoningModel : Model → bool;
  isSupportedThinkingTokenQwenModel : Model → bool;
  isSupportedThinkingTokenClaudeModel : Model → bool;
  isSupportedReasoningEffortModel : Model → bool;
  isSupportedThinkingTokenModel : Model → bool;
  isSupportedReasoningEffortGrokModel : Model → bool;
  isSupportedReasoningEffortOpenAIModel : Model → bool
}.

(** The objects [getReasoningEffort] returns. *)
Inductive ReasoningParams :=
| NoParams
| EnableThinking (enable_thinking : bool) (thinking_budget : option Z)
| ThinkingDisabled
| ThinkingEnabled (budget_tokens : Z)
| OpenRouterEffort (effort : string)
| OpenRouterMaxTokens (max_tokens : Z)
| ReasoningEffort (reasoning_effort : string).

Definition DEFAULT_MAX_TOKENS : Z := 4096.

(** [getReasoningEffort]; [budgetTokens] is
    [Math.floor((findTokenLimit(model.id)?.max || 0) * effortRatio)], whose
    factors are imported, and [maxTokens] comes from [getAssistantSettings]. *)
Definition getReasoningEffort (preds : ModelPredicates) (providerId : string) (m : Model)
    (reasoningEffort : option string) (budgetTokens : Z) (maxTokens : option Z)
  : ReasoningParams :=
  if String.eqb providerId "groq" then NoParams
  else if negb (isReasoningModel preds m) then NoParams
  else if negb (Js.truthy reasoningEffort) then
    if isSupportedThinkingTokenQwenModel preds m then EnableThinking false None
    else if isSupportedThinkingTokenClaudeModel preds m then ThinkingDisabled
    else NoParams
  else
    let effort := default "" reasoningEffort in
    if String.eqb (provider m) "openrouter"
       && (isSupportedReasoningEffortModel preds m || isSupportedThinkingTokenClaudeModel preds m)
    then OpenRouterEffort effort
    else if String.eqb (provider m) "openrouter" && isSupportedThinkingTokenModel preds m
    then OpenRouterMaxTokens budgetTokens
    else if isSupportedThinkingTokenQwenModel preds m then EnableThinking true (Some budgetTokens)
    else if isSupportedReasoningEffortGrokModel preds m then ReasoningEffort effort
    else if isSupportedReasoningEffortOpenAIModel preds m then ReasoningEffort effort
    else if isSupportedThinkingTokenClaudeModel preds m then
      let limit :=
        match maxTokens with
        | Some k => if k =? 0 then DEFAULT_MAX_TOKENS else k
        | None => DEFAULT_MAX_TOKENS
        end in
      ThinkingEnabled (Z.max (Z.min budgetTokens limit) 1024)
    else NoParams.

(** *** [translate] *)

(** The content a chunk adds: [chunk.choices[0]?.delta?.content || '']. *)
Definition deltaContentOf (c : ChatCompletionChunk) : string :=
  if Js.truthy (delta c ≫= delta_content) then default "" (delta c ≫= delta_content) else "".

(** The loop variables of the streaming branch, and the calls of
    [onResponse] made so far. *)
Record Translation := {
  text : string;
  isThinking : bool;
  responses : list (string * bool)
}.

(** One turn of [for await (const chunk of response)]. *)
Definition translateChunk (isReasoning : bool) (t : Translation) (c : ChatCompletionChunk)
  : Translation :=
  let deltaContent := deltaContentOf c in
  if isReasoning then
    let thinkingNow := if Js.includes "<think>" deltaContent then true else isThinking t in
    let t :=
      if negb thinkingNow then
        {| text := String.append (text t) deltaContent; isThinking := thinkingNow;
           responses := responses t ++ [(String.append (text t) deltaContent, false)] |}
      else {| text := text t; isThinking := thinkingNow; responses := responses t |} in
    {| text := text t;
       isThinking := if Js.includes "</think>" deltaContent then false else isThinking t;
       responses := responses t |}
  else
    {| text := String.append (text t) deltaContent; isThinking := isThinking t;
       responses := responses t ++ [(String.append (text t) deltaContent, false)] |}.

Inductive Translated :=
| Returned (calls : list (string * bool)) (result : string)
| Raised (exception : Js.Exception).

(** [isSupportedStreamOutput()] of [translate]. *)
Definition translateStreams (hasOnResponse : bool) (m : Model) : bool :=
  if negb hasOnResponse then false
  else if isOpenAIReasoning m then false
  else true.

(** [translate], from the response on: [whole] answers a request with
    [stream: false], [chunks] one with [stream: true]. *)
Definition translate (hasOnResponse : bool) (m : Model) (isReasoning : bool)
    (whole : ChatCompletion) (chunks : list ChatCompletionChunk) : Translated :=
  if negb (translateStreams hasOnResponse m) then
    match choices whole with
    | [] => Raised (Js.TypeError "Cannot read properties of undefined (reading 'message')")
    | first :: _ =>
        let answer := message first ≫= message_content in
        Returned [] (if Js.truthy answer then default "" answer else "")
    end
  else
    let t := foldl (translateChunk isReasoning)
               {| text := ""; isThinking := false; responses := [] |} chunks in
    Returned (responses t ++ [(text t, true)]) (text t).

(** *** Vocabulary for [completions] *)

(** The texts of the [TEXT_DELTA] chunks of a trace, joined in order. *)
Fixpoint textDeltaText (trace : list Chunk) : string :=
  match trace with
  | [] => ""
  | TEXT_DELTA text :: rest => String.append text (textDeltaText rest)
  | _ :: rest => textDeltaText rest
  end.

(** Walking a trace with the answer text sent so far in [answer]: every
    [TEXT_COMPLETE] carries exactly that text. *)
Fixpoint textCompletesAgree (answer : string) (trace : list Chunk) : Prop :=
  match trace with
  | [] => True
  | TEXT_DELTA text :: rest => textCompletesAgree (String.append answer text) rest
  | TEXT_COMPLETE text :: rest => text = answer ∧ textCompletesAgree answer rest
  | _ :: rest => textCompletesAgree answer rest
  end.

(** Chunks that carry no answer text. *)
Definition notText (c : Chunk) : Prop :=
  match c with
  | TEXT_DELTA _ | TEXT_COMPLETE _ => False
  | _ => True
  end.

(** The chunks the loop sends for a chunk of the stream that has no finish
    reason. *)
Definition streamingOnly (c : Chunk) : Prop :=
  match c with
  | THINKING_DELTA _ _ | THINKING_COMPLETE _ _ | TEXT_DELTA _ => True
  | _ => False
  end.

(** The first-token metric of the [BLOCK_COMPLETE] chunks of a trace. *)
Fixpoint firstTokenMetrics (trace : list Chunk) : list Z :=
  match trace with
  | [] => []
  | BLOCK_COMPLETE _ metrics :: rest =>
      metrics_time_first_token_millsec metrics :: firstTokenMetrics rest
  | _ :: rest => firstTokenMetrics rest
  end.

Definition outcomeClosure (o : Outcome) : Closure :=
  match o with
  | Finished s | Threw s _ | Pending s _ => s
  end.

(** *** Vocabulary and samples for [translate] and [getReasoningEffort] *)

(** The strings of a list joined in order. *)
Definition joined (l : list string) : string := foldr String.append "" l.

(** The calls of [onResponse] while [deltas] are appended to [text]: one for
    every delta, with the text so far. *)
Definition progressCalls (text : string) (deltas : list string) : list (string * bool) :=
  (λ k, (String.append text (joined (take k deltas)), false)) <$> seq 1 (length deltas).

Definition opensThinking (c : ChatCompletionChunk) : bool :=
  Js.includes "<think>" (deltaContentOf c).


(** Predicates that know one kind of model: Claude models with a thinking
    budget. *)
Definition claudePredicates : ModelPredicates :=
  {| isReasoningModel := λ _, true;
     isSupportedThinkingTokenQwenModel := λ _, false;
     isSupportedThinkingTokenClaudeModel := λ _, true;
     isSupportedReasoningEffortModel := λ _, false;
     isSupportedThinkingTokenModel := λ _, true;
     isSupportedReasoningEffortGrokModel := λ _, false;
     isSupportedReasoningEffortOpenAIModel := λ _, false |}.

Definition claudeModel : Model := {| id := "claude-3-7-sonnet"; provider := "anthropic" |}.

(** *** Sample inputs *)

Definition wholeCompletion : ChatCompletion :=
  {| choices := [ {| message := Some {| message_content := Some "call" |} |} ];
     completion_usage := Some (usageOf 7) |}.

(** Collaborators that answer a request without streaming, with a tool
    executor that would return a result in every round. *)
Definition wholeSdk : Collaborators :=
  {| parseAndCallTools := alwaysCalls;
     createStream := λ _, [];
     createCompletion := λ _, (2000, wholeCompletion);
     convertLinks := λ text _, text;
     convertLinksToOpenRouter := λ text _, text;
     convertLinksToZhipu := λ text _, text;
     convertLinksToHunyuan := λ text _ _, text;
     isZhipuModel := λ _, false;
     isHunyuanSearchModel := λ _, false |}.

Definition wholeRequest : Request :=
  {| model := {| id := "gpt-4o"; provider := "openai" |};
     enableWebSearch := false;
     webSearchProviderId := None;
     streamOutput := false;
     start_time_millsec := 1000;
     systemMessage := {| role := system; ModelMessageService.content := Text "" |};
     userMessages := [ {| role := user; ModelMessageService.content := Text "hi" |} ] |}.

End OpenAIProviderMethods.

(** ** Vocabulary for the citation formatter *)

Module CitationVocabulary.

Import MessageBlock.

(** The urls of a list of citations that are present and not empty. *)
Definition nonEmptyUrls (citations : list Citation) : list string :=
  omap (λ c, match url c with
             | Some u => if Js.truthy (Some u) then Some u else None
             | None => None
             end) citations.

End CitationVocabulary.

(** * Properties *)

(** ** Message interleaving *)

Module ModelMessageFacts.

Import ModelMessageService.

Lemma interleaveStep_at pre p m l acc :
  interleaveStep (pre ++ p :: m :: l) acc (S (length pre))
  = acc ++ (if bool_decide (role m = role p) then [separator (role m)] else []) ++ [m].
Proof.
  unfold interleaveStep.
  replace ((pre ++ p :: m :: l) !! S (length pre)) with (Some m); cycle 1.
  { symmetry. rewrite lookup_app_r by lia.
    by replace (S (length pre) - length pre) with 1 by lia. }
  replace (S (length pre) - 1) with (length pre) by lia.
  rewrite list_lookup_middle by done. simpl.
  case_bool_decide; simpl; [|done].
  by rewrite <- app_assoc.
Qed.

Lemma foldl_interleaveStep l : ∀ pre p acc,
  foldl (interleaveStep (pre ++ p :: l)) acc (seq (S (length pre)) (length l))
  = acc ++ separatedAfter (role p) l.
Proof.
  induction l as [|m l IH]; intros pre p acc; simpl.
  - by rewrite app_nil_r.
  - rewrite interleaveStep_at.
    specialize (IH (pre ++ [p]) m).
    rewrite <- app_assoc in IH. simpl in IH.
    rewrite length_app in IH. simpl in IH.
    replace (length pre + 1) with (S (length pre)) in IH by lia.
    rewrite IH. by rewrite <- !app_assoc.
Qed.

(** The index loop of the source computes the separator rule. *)
Lemma interleave_separated l : interleaveUserAndAssistantMessages l = separated l.
Proof.
  unfold interleaveUserAndAssistantMessages.
  destruct l as [|m l]; [done|].
  exact (foldl_interleaveStep l [] m [m]).
Qed.

Lemma processReqMessages_deepseek m l :
  id m = "deepseek-reasoner" → processReqMessages m l = separated l.
Proof.
  intros Hid. unfold processReqMessages, needStrictlyInterleaveUserAndAssistantMessages.
  rewrite Hid. simpl. apply interleave_separated.
Qed.

Lemma rolesAlternate_one a : rolesAlternate [a].
Proof. intros [|i] x y; simpl; intros; simplify_eq. Qed.

Lemma rolesAlternate_cons a b l :
  role a ≠ role b → rolesAlternate (b :: l) → rolesAlternate (a :: b :: l).
Proof.
  intros Hab Hl [|i] x y; simpl.
  - intros; simplify_eq. done.
  - intros Hx Hy. by apply (Hl i).
Qed.

Lemma separator_role_ne r : role (separator r) ≠ r.
Proof. unfold separator. simpl. case_bool_decide; by destruct r. Qed.

Lemma rolesAlternate_separatedAfter l : ∀ p,
  rolesAlternate (p :: separatedAfter (role p) l).
Proof.
  induction l as [|m l IH]; intros p; simpl.
  - apply rolesAlternate_one.
  - case_bool_decide as Hm; simpl.
    + apply rolesAlternate_cons.
      { rewrite <- Hm. intros E. by apply (separator_role_ne (role m)). }
      apply rolesAlternate_cons; [apply separator_role_ne | apply IH].
    + apply rolesAlternate_cons; [congruence | apply IH].
Qed.

Lemma rolesAlternate_separated l : rolesAlternate (separated l).
Proof.
  destruct l as [|m l]; simpl.
  - intros i a b Hi. by rewrite lookup_nil in Hi.
  - apply rolesAlternate_separatedAfter.
Qed.

Lemma sublist_separatedAfter l : ∀ r, sublist l (separatedAfter r l).
Proof.
  induction l as [|m l IH]; intros r; simpl; [constructor|].
  case_bool_decide; simpl.
  - apply sublist_cons. apply sublist_skip, IH.
  - apply sublist_skip, IH.
Qed.

Lemma length_separatedAfter l : ∀ r,
  length (separatedAfter r l) = length l + repeatsAfter r l.
Proof.
  induction l as [|m l IH]; intros r; simpl; [done|].
  case_bool_decide; simpl; rewrite IH; lia.
Qed.

(** C3. For the model id 'deepseek-reasoner' the output of
    [processReqMessages] never holds two neighbours that share the role user
    or the role assistant, whatever the input; and four messages of roles
    user, user, assistant, assistant come out as user, assistant (empty),
    user, assistant, user (empty), assistant. *)
Theorem strict_alternation_of_user_and_assistant (m : Model)
    (messages : list ChatCompletionMessageParam) :
  id m = "deepseek-reasoner" →
  userAssistantAlternate (processReqMessages m messages)
  ∧ ∀ c1 c2 c3 c4,
      processReqMessages m
        [ {| role := user; content := c1 |}; {| role := user; content := c2 |};
          {| role := assistant; content := c3 |}; {| role := assistant; content := c4 |} ]
      = [ {| role := user; content := c1 |};
          {| role := assistant; content := Text "" |};
          {| role := user; content := c2 |};
          {| role := assistant; content := c3 |};
          {| role := user; content := Text "" |};
          {| role := assistant; content := c4 |} ].
Proof.
  intros Hid. split.
  - rewrite processReqMessages_deepseek by done.
    intros i a b Ha Hb Hab.
    by destruct (rolesAlternate_separated messages i a b Ha Hb).
  - intros c1 c2 c3 c4. by rewrite processReqMessages_deepseek.
Qed.

Lemma strict_alternation_witness :
  id deepseekReasoner = "deepseek-reasoner"
  ∧ userAssistantAlternate
      (processReqMessages deepseekReasoner
         [ {| role := user; content := Text "q1" |};
           {| role := user; content := Text "q2" |};
           {| role := assistant; content := Text "a1" |} ]).
Proof.
  split; [reflexivity|].
  apply (strict_alternation_of_user_and_assistant deepseekReasoner
           [ {| role := user; content := Text "q1" |};
             {| role := user; content := Text "q2" |};
             {| role := assistant; content := Text "a1" |} ]).
  reflexivity.
Defined.

(** C9. For the model id 'deepseek-reasoner', [processReqMessages] puts an
    empty-content separator between every two consecutive messages of equal
    role, whichever role that is (assistant after a repeated user, user after
    anything else repeated); so no two neighbours of the output have equal
    roles, the input messages are all there, unchanged and in their order,
    and the output is longer by exactly the number of repeated neighbours. *)
Theorem separator_between_every_repeated_role (m : Model)
    (messages : list ChatCompletionMessageParam) :
  id m = "deepseek-reasoner" →
  processReqMessages m messages = separated messages
  ∧ rolesAlternate (processReqMessages m messages)
  ∧ sublist messages (processReqMessages m messages)
  ∧ length (processReqMessages m messages) = length messages + repeats messages.
Proof.
  intros Hid. rewrite processReqMessages_deepseek by done.
  split; [done|]. split; [apply rolesAlternate_separated|].
  destruct messages as [|x l]; simpl.
  - split; [constructor | done].
  - split; [apply sublist_skip, sublist_separatedAfter|].
    by rewrite length_separatedAfter.
Qed.

Lemma separator_between_every_repeated_role_witness :
  id deepseekReasoner = "deepseek-reasoner"
  ∧ processReqMessages deepseekReasoner
      [ {| role := system; content := Text "s1" |};
        {| role := system; content := Text "s2" |};
        {| role := tool; content := Text "t1" |};
        {| role := tool; content := Text "t2" |} ]
    = [ {| role := system; content := Text "s1" |};
        {| role := user; content := Text "" |};
        {| role := system; content := Text "s2" |};
        {| role := tool; content := Text "t1" |};
        {| role := user; content := Text "" |};
        {| role := tool; content := Text "t2" |} ].
Proof.
  split; [reflexivity|].
  pose proof (separator_between_every_repeated_role deepseekReasoner
           [ {| role := system; content := Text "s1" |};
             {| role := system; content := Text "s2" |};
             {| role := tool; content := Text "t1" |};
             {| role := tool; content := Text "t2" |} ] eq_refl) as [H _].
  exact H.
Defined.

End ModelMessageFacts.

(** ** Citation formatting *)

Module MessageBlockFacts.

Import MessageBlock.

Lemma truthy_Some s : Js.truthy (Some s) = true ↔ s ≠ "".
Proof.
  unfold Js.truthy. destruct (String.eqb_spec s ""); simpl; split; intros; congruence.
Qed.

Lemma firstWithUrl_head c u rest : url c = Some u → firstWithUrl (c :: rest) u 0 c.
Proof. intros Hu. split; [done|]. split; [done|]. intros j c' Hj. lia. Qed.

Lemma firstWithUrl_tail c0 rest u i c :
  url c0 ≠ Some u → firstWithUrl rest u i c → firstWithUrl (c0 :: rest) u (S i) c.
Proof.
  intros Hne (Hi & Hu & Hfirst). split; [done|]. split; [done|].
  intros [|j] c' Hj; simpl; intros Hc'; [by simplify_eq|].
  apply (Hfirst j); [lia | done].
Qed.

Lemma firstWithUrl_inv c0 rest u i c :
  firstWithUrl (c0 :: rest) u i c →
  (i = 0 ∧ c = c0 ∧ url c0 = Some u)
  ∨ (∃ i', i = S i' ∧ url c0 ≠ Some u ∧ firstWithUrl rest u i' c).
Proof.
  intros (Hi & Hu & Hfirst). destruct i as [|i']; simpl in Hi.
  - left. by simplify_eq.
  - right. exists i'. split; [done|]. split.
    + apply (Hfirst 0 c0); [lia | done].
    + split; [done|]. split; [done|].
      intros j c' Hj Hc'. apply (Hfirst (S j)); [lia | done].
Qed.

(** What the filter keeps: exactly the first citation of each url that is
    neither empty nor already in [urlSet]. *)
Lemma filterSeen_spec cs : ∀ (urlSet : gset string) c,
  c ∈ filterSeen urlSet cs
  ↔ ∃ i u, u ≠ "" ∧ (u ∉ urlSet) ∧ firstWithUrl cs u i c.
Proof.
  induction cs as [|c0 rest IH]; intros urlSet c; cbn [filterSeen].
  - split; [by intros ?%elem_of_nil|].
    intros (i & u & _ & _ & Hi & _). by rewrite lookup_nil in Hi.
  - assert (Hskip : (∀ u, url c0 = Some u → u = "" ∨ u ∈ urlSet) →
      (c ∈ filterSeen urlSet rest
       ↔ ∃ i u, u ≠ "" ∧ (u ∉ urlSet) ∧ firstWithUrl (c0 :: rest) u i c)).
    { intros Hbad. rewrite IH. split.
      - intros (i & u & Hu & Hin & Hfirst). exists (S i), u.
        split; [done|]. split; [done|]. apply firstWithUrl_tail; [|done].
        intros E. destruct (Hbad u E); done.
      - intros (i & u & Hu & Hin & Hfirst).
        destruct (firstWithUrl_inv _ _ _ _ _ Hfirst) as [(_ & _ & E)|(i' & _ & _ & H')].
        + destruct (Hbad u E); done.
        + by exists i', u. }
    destruct (url c0) as [u0|] eqn:Hu0; [|apply Hskip; by intros].
    destruct (negb (Js.truthy (Some u0)) || bool_decide (u0 ∈ urlSet)) eqn:Htest.
    + apply Hskip. intros u [= <-].
      apply orb_true_iff in Htest as [Hempty|Hseen].
      * left. apply negb_true_iff in Hempty.
        destruct (decide (u0 = "")) as [|Hne]; [done|].
        apply truthy_Some in Hne. congruence.
      * right. by apply bool_decide_eq_true in Hseen.
    + apply orb_false_iff in Htest as [Hfull Hfresh].
      apply negb_false_iff, truthy_Some in Hfull.
      apply bool_decide_eq_false in Hfresh.
      rewrite elem_of_cons, IH. split.
      * intros [->|(i & u & Hu & Hin & Hfirst)].
        -- exists 0, u0. split; [done|]. split; [done|]. by apply firstWithUrl_head.
        -- apply not_elem_of_union in Hin as [Hne%not_elem_of_singleton Hin].
           exists (S i), u. split; [done|]. split; [done|].
           apply firstWithUrl_tail; [|done]. congruence.
      * intros (i & u & Hu & Hin & Hfirst).
        destruct (firstWithUrl_inv _ _ _ _ _ Hfirst) as [(_ & -> & _)|(i' & _ & Hne & H')].
        -- by left.
        -- right. exists i', u. split; [done|]. split; [|done].
           apply not_elem_of_union. split; [|done].
           apply not_elem_of_singleton. congruence.
Qed.

Lemma filterSeen_hasUrl cs (urlSet : gset string) c :
  c ∈ filterSeen urlSet cs → hasUrl c.
Proof.
  intros (i & u & Hu & _ & _ & Hc & _)%filterSeen_spec. by exists u.
Qed.

Lemma filterSeen_NoDup cs : ∀ urlSet : gset string,
  NoDup (url <$> filterSeen urlSet cs).
Proof.
  induction cs as [|c0 rest IH]; intros urlSet; cbn [filterSeen]; [constructor|].
  destruct (url c0) as [u0|] eqn:Hu0; [|apply IH].
  destruct (negb (Js.truthy (Some u0)) || bool_decide (u0 ∈ urlSet)); [apply IH|].
  cbn [fmap list_fmap]. constructor; [|apply IH].
  rewrite Hu0. intros (c & Hc & Hin)%list_elem_of_fmap.
  apply filterSeen_spec in Hin as (i & u & _ & Hfresh & _ & Hu & _).
  rewrite Hu in Hc. simplify_eq.
  apply Hfresh, elem_of_union_l, elem_of_singleton. reflexivity.
Qed.

Lemma filterSeen_sublist cs : ∀ urlSet : gset string,
  sublist (filterSeen urlSet cs) cs.
Proof.
  induction cs as [|c0 rest IH]; intros urlSet; cbn [filterSeen]; [constructor|].
  destruct (url c0) as [u0|]; [|apply sublist_cons, IH].
  destruct (negb (Js.truthy (Some u0)) || bool_decide (u0 ∈ urlSet)).
  - apply sublist_cons, IH.
  - apply sublist_skip, IH.
Qed.

Lemma renumber_numbers cs : number <$> renumber cs = seq 1 (length cs).
Proof.
  apply list_eq. intros i. unfold renumber.
  rewrite list_lookup_fmap, list_lookup_imap.
  destruct (cs !! i) as [c|] eqn:Hc; simpl.
  - apply lookup_lt_Some in Hc as Hlt.
    rewrite lookup_seq_lt by done. f_equal. lia.
  - apply lookup_ge_None in Hc. by rewrite lookup_seq_ge.
Qed.

Lemma renumber_length cs : length (renumber cs) = length cs.
Proof. unfold renumber. apply length_imap. Qed.

Lemma renumber_sameSource cs : Forall2 sameSource (renumber cs) cs.
Proof.
  apply Forall2_same_length_lookup. split; [apply renumber_length|].
  intros i c c'. unfold renumber. rewrite list_lookup_imap.
  intros Hc Hc'. rewrite Hc' in Hc. simplify_eq/=. reflexivity.
Qed.

Lemma renumber_urls cs : url <$> renumber cs = url <$> cs.
Proof.
  apply list_eq. intros i. unfold renumber.
  rewrite !list_lookup_fmap, list_lookup_imap. by destruct (cs !! i).
Qed.

Lemma format_numbers urlHostname block :
  number <$> formatCitationsFromBlock urlHostname block
  = seq 1 (length (formatCitationsFromBlock urlHostname block)).
Proof.
  destruct block as [block|]; [|done]. unfold formatCitationsFromBlock.
  by rewrite renumber_numbers, renumber_length.
Qed.

(** C4. [formatCitationsFromBlock] keeps, of the citations it collected, the
    first one of every url and drops the later ones with that url; what it
    keeps stays in the collected order and is numbered 1..N; the output has
    no url twice. Collected urls a.com, b.com, a.com give two citations,
    numbered 1 and 2, a.com first. (A citation whose url is missing or empty
    is not kept at all.) *)
Theorem citations_deduplicated_and_renumbered
    (urlHostname : string → option string) (block : CitationMessageBlock) :
  let input := formattedCitations urlHostname block in
  let output := formatCitationsFromBlock urlHostname (Some block) in
  NoDup (url <$> output)
  ∧ number <$> output = seq 1 (length output)
  ∧ (∃ kept, sublist kept input ∧ Forall2 sameSource output kept
       ∧ ∀ c, c ∈ kept ↔ ∃ i u, u ≠ "" ∧ firstWithUrl input u i c)
  ∧ (λ c, (number c, url c)) <$> formatCitationsFromBlock urlHostname (Some perplexityBlock)
    = [(1, Some "a.com"); (2, Some "b.com")].
Proof.
  intros input output. subst output. split; [|split; [|split]].
  - cbn [formatCitationsFromBlock]. rewrite renumber_urls. apply filterSeen_NoDup.
  - apply format_numbers.
  - exists (filterSeen ∅ input). split; [apply filterSeen_sublist|].
    split; [apply renumber_sameSource|].
    intros c. rewrite filterSeen_spec. split.
    + intros (i & u & Hu & _ & Hfirst). by exists i, u.
    + intros (i & u & Hu & Hfirst). exists i, u.
      split; [done|]. split; [apply not_elem_of_empty | done].
  - unfold perplexityBlock, formatCitationsFromBlock, formattedCitations. simpl.
    unfold fromUrl. by destruct (urlHostname "a.com"), (urlHostname "b.com").
Qed.

(** C10. No citation returned by [formatCitationsFromBlock] has a missing or
    an empty url, and the numbers are still 1..N: the filter drops such
    citations before the renumbering. Gemini grounding chunks without a web
    uri are collected with url '' and are gone from the output. *)
Theorem citations_all_have_a_url
    (urlHostname : string → option string) (block : option CitationMessageBlock) :
  Forall hasUrl (formatCitationsFromBlock urlHostname block)
  ∧ number <$> formatCitationsFromBlock urlHostname block
    = seq 1 (length (formatCitationsFromBlock urlHostname block))
  ∧ url <$> formattedCitations urlHostname geminiBlock = [Some ""; Some "g.com"; Some ""]
  ∧ (λ c, (number c, url c)) <$> formatCitationsFromBlock urlHostname (Some geminiBlock)
    = [(1, Some "g.com")].
Proof.
  split; [|split; [apply format_numbers | split; reflexivity]].
  destruct block as [block|]; [|constructor]. cbn [formatCitationsFromBlock].
  apply Forall_forall. intros c Hc.
  apply list_elem_of_lookup in Hc as [i Hi].
  unfold renumber in Hi. rewrite list_lookup_imap in Hi.
  destruct (filterSeen ∅ (formattedCitations urlHostname block) !! i) as [c'|] eqn:Hc';
    [|done].
  simpl in Hi. simplify_eq.
  assert (hasUrl c') as (u & Hu & Hne).
  { eapply filterSeen_hasUrl, list_elem_of_lookup_2, Hc'. }
  by exists u.
Qed.

End MessageBlockFacts.

(** ** The completion loop *)

Module OpenAIProviderFacts.

Import MessageBlock OpenAIProvider.
Open Scope Z_scope.

#[local] Arguments String.append !_ _ /.

Lemma append_nil_r s : String.append s "" = s.
Proof.
  induction s as [|c s IH]; [done|].
  change (String c (String.append s "") = String c s). by rewrite IH.
Qed.

Lemma append_assoc s1 s2 s3 :
  String.append (String.append s1 s2) s3 = String.append s1 (String.append s2 s3).
Proof.
  induction s1 as [|c s1 IH]; [done|].
  change (String c (String.append (String.append s1 s2) s3)
          = String c (String.append s1 (String.append s2 s3))).
  by rewrite IH.
Qed.

Lemma thinkingDeltaText_app l1 l2 :
  thinkingDeltaText (l1 ++ l2) = String.append (thinkingDeltaText l1) (thinkingDeltaText l2).
Proof.
  induction l1 as [|c l1 IH]; simpl; [done|].
  destruct c; simpl; try done. by rewrite IH, append_assoc.
Qed.

Lemma plain_thinkingDeltaText l : Forall plain l → thinkingDeltaText l = "".
Proof. induction 1 as [|c l Hc _ IH]; [done|]. by destruct c. Qed.

Lemma plain_no_thinking_complete l : Forall plain l → filter isThinkingComplete l = [].
Proof.
  induction 1 as [|c l Hc _ IH]; [done|].
  destruct c; simpl in *; try done; by rewrite filter_cons_False.
Qed.

Lemma plain_no_block_complete l : Forall plain l → filter isBlockComplete l = [].
Proof.
  induction 1 as [|c l Hc _ IH]; [done|].
  destruct c; simpl in *; try done; by rewrite filter_cons_False.
Qed.

Section Stages.

Variable request : Request.
Variable sdk : Collaborators.

Lemma isReasoningJustDone_frame d s b s' :
  isReasoningJustDone d s = (b, s') →
  sent s' = sent s
  ∧ time_first_token_millsec s' = time_first_token_millsec s
  ∧ time_first_token_millsec_delta s' = time_first_token_millsec_delta s
  ∧ time_first_content_millsec s' = time_first_content_millsec s.
Proof.
  unfold isReasoningJustDone. intros H.
  repeat case_match; simplify_eq; done.
Qed.

Lemma latchFirstThinkingToken_spec a s f s' f' :
  latchFirstThinkingToken request a (s, f) = (s', f') →
  sent s' = sent s
  ∧ time_first_content_millsec s' = time_first_content_millsec s
  ∧ content f' = content f
  ∧ thinkingContent f' = thinkingContent f
  ∧ lastUsage f' = lastUsage f
  ∧ (time_first_token_millsec s ≠ 0 →
       time_first_token_millsec s' = time_first_token_millsec s).
Proof.
  unfold latchFirstThinkingToken. intros H.
  destruct (time_first_token_millsec s =? 0) eqn:Hz; simpl in H.
  - apply Z.eqb_eq in Hz. case_match; simplify_eq; done.
  - by simplify_eq.
Qed.

Lemma accumulateThinking_spec a s f s' f' :
  accumulateThinking a (s, f) = (s', f') →
  time_first_token_millsec s' = time_first_token_millsec s
  ∧ time_first_content_millsec s' = time_first_content_millsec s
  ∧ content f' = content f
  ∧ lastUsage f' = lastUsage f
  ∧ ∃ deltas,
      sent s' = sent s ++ deltas
      ∧ filter isThinkingComplete deltas = []
      ∧ filter isBlockComplete deltas = []
      ∧ (Js.truthy (reasoningContentOf (delta (chunk a))) = false → deltas = [])
      ∧ thinkingContent f' = String.append (thinkingContent f) (thinkingDeltaText deltas).
Proof.
  unfold accumulateThinking. intros H.
  assert (Hnone : ∃ deltas,
    sent s = sent s ++ deltas
    ∧ filter isThinkingComplete deltas = []
    ∧ filter isBlockComplete deltas = []
    ∧ (Js.truthy (reasoningContentOf (delta (chunk a))) = false → deltas = [])
    ∧ thinkingContent f = String.append (thinkingContent f) (thinkingDeltaText deltas)).
  { exists []. cbn [thinkingDeltaText]. by rewrite app_nil_r, append_nil_r. }
  destruct (reasoningContentOf (delta (chunk a))) as [r|]; [|by simplify_eq].
  destruct (Js.truthy (Some r)) eqn:Hr; [|by simplify_eq].
  simplify_eq. repeat (split; [done|]).
  exists [THINKING_DELTA r (now a - time_first_token_millsec s)].
  cbn [thinkingDeltaText]. by rewrite append_nil_r.
Qed.

Lemma completeThinking_spec a s f s' f' :
  completeThinking a (s, f) = (s', f') →
  time_first_token_millsec s' = time_first_token_millsec s
  ∧ content f' = content f
  ∧ lastUsage f' = lastUsage f
  ∧ ((sent s' = sent s
      ∧ time_first_content_millsec s' = time_first_content_millsec s
      ∧ thinkingContent f' = thinkingContent f)
     ∨ (time_first_content_millsec s = 0
        ∧ time_first_content_millsec s' = now a
        ∧ (∃ ms, sent s' = sent s ++ [THINKING_COMPLETE (thinkingContent f) ms])
        ∧ thinkingContent f' = "")).
Proof.
  unfold completeThinking. intros H.
  destruct (isReasoningJustDone (delta (chunk a)) s) as [justDone s1] eqn:Hdone.
  apply isReasoningJustDone_frame in Hdone as (Hsent & Htok & _ & Hcont).
  destruct (justDone && (time_first_content_millsec s1 =? 0)) eqn:Htest;
    simplify_eq; simpl.
  - apply andb_true_iff in Htest as [_ Hz%Z.eqb_eq].
    repeat (split; [done|]). right. rewrite <- Hcont.
    split; [done|]. split; [done|]. split; [|done].
    eexists. by rewrite Hsent.
  - repeat (split; [done|]). by left.
Qed.

Lemma accumulateText_spec a s f s' f' :
  accumulateText request sdk a (s, f) = (s', f') →
  time_first_content_millsec s' = time_first_content_millsec s
  ∧ thinkingContent f' = thinkingContent f
  ∧ lastUsage f' = lastUsage f
  ∧ (time_first_token_millsec s ≠ 0 →
       time_first_token_millsec s' = time_first_token_millsec s)
  ∧ ((sent s' = sent s ∧ content f' = content f
      ∧ Js.truthy (delta (chunk a) ≫= delta_content) = false)
     ∨ (∃ text, sent s' = sent s ++ [TEXT_DELTA text]
                ∧ content f' = String.append (content f) text
                ∧ Js.truthy (delta (chunk a) ≫= delta_content) = true)).
Proof.
  unfold accumulateText. intros H.
  destruct (delta (chunk a) ≫= delta_content) as [text|] eqn:Htext;
    [|simplify_eq; repeat (split; [done|]); by left].
  destruct (Js.truthy (Some text)) eqn:Htruthy;
    [|simplify_eq; repeat (split; [done|]); by left].
  destruct (time_first_token_millsec s =? 0) eqn:Hz.
  - apply Z.eqb_eq in Hz.
    repeat case_match; simplify_eq; simpl;
      (repeat (split; [done|])); right; by eexists.
  - rewrite andb_false_r in H. simpl in H. simplify_eq. simpl.
    repeat (split; [done|]). right. by eexists.
Qed.

Lemma foldl_onChunk l : ∀ s,
  sent (foldl (λ s c, onChunk c s) s l) = sent s ++ l
  ∧ time_first_token_millsec (foldl (λ s c, onChunk c s) s l) = time_first_token_millsec s
  ∧ time_first_content_millsec (foldl (λ s c, onChunk c s) s l)
    = time_first_content_millsec s.
Proof.
  induction l as [|c l IH]; intros s; simpl; [by rewrite app_nil_r|].
  destruct (IH (onChunk c s)) as (-> & -> & ->). simpl.
  by rewrite <- app_assoc.
Qed.

Lemma webSearchChunks_plain c : Forall plain (webSearchChunks request sdk c).
Proof.
  unfold webSearchChunks.
  repeat (apply Forall_app; split); repeat case_match; by repeat constructor.
Qed.

Lemma finishChunk_spec a s f s' f' :
  finishChunk request sdk a (s, f) = (s', f') →
  time_first_token_millsec s' = time_first_token_millsec s
  ∧ time_first_content_millsec s' = time_first_content_millsec s
  ∧ content f' = content f
  ∧ thinkingContent f' = thinkingContent f
  ∧ ((Js.truthy (finish_reason (chunk a)) = false
      ∧ sent s' = sent s ∧ lastUsage f' = lastUsage f)
     ∨ (Js.truthy (finish_reason (chunk a)) = true
        ∧ sent s' = sent s ++ TEXT_COMPLETE (content f) :: webSearchChunks request sdk (chunk a)
        ∧ lastUsage f' = match usage (chunk a) with
                         | Some u => Some u
                         | None => lastUsage f
                         end)).
Proof.
  unfold finishChunk. intros H.
  destruct (Js.truthy (finish_reason (chunk a))) eqn:Hfinish; simplify_eq.
  - destruct (foldl_onChunk (webSearchChunks request sdk (chunk a))
                (onChunk (TEXT_COMPLETE (content f)) s)) as (Hsent & Htok & Hcont).
    rewrite Hsent, Htok, Hcont. simpl.
    repeat (split; [done|]). right. by rewrite <- app_assoc.
  - repeat (split; [done|]). by left.
Qed.

(** One turn of the loop, summed up: which chunks it sends and what it
    does to the buffers, the latches and [lastUsage]. *)
Lemma processChunk_spec a s f s' f' :
  processChunk request sdk a (s, f) = (s', f') →
  keepsLatched s s'
  ∧ lastUsage f'
    = (if Js.truthy (finish_reason (chunk a))
       then match usage (chunk a) with Some u => Some u | None => lastUsage f end
       else lastUsage f)
  ∧ (if Js.truthy (delta (chunk a) ≫= delta_content)
     then ∃ text, content f' = String.append (content f) text
     else content f' = content f)
  ∧ ∃ deltas tail,
      filter isThinkingComplete deltas = []
      ∧ filter isBlockComplete deltas = []
      ∧ (Js.truthy (reasoningContentOf (delta (chunk a))) = false → deltas = [])
      ∧ Forall plain tail
      ∧ ((sent s' = sent s ++ deltas ++ tail
          ∧ time_first_content_millsec s' = time_first_content_millsec s
          ∧ thinkingContent f'
            = String.append (thinkingContent f) (thinkingDeltaText deltas))
         ∨ (time_first_content_millsec s = 0
            ∧ time_first_content_millsec s' = now a
            ∧ (∃ ms, sent s' = sent s ++ deltas
                       ++ THINKING_COMPLETE
                            (String.append (thinkingContent f) (thinkingDeltaText deltas)) ms
                          :: tail)
            ∧ thinkingContent f' = "")).
Proof.
  unfold processChunk. intros H.
  destruct (latchFirstThinkingToken request a (s, f)) as [s1 f1] eqn:E1.
  destruct (accumulateThinking a (s1, f1)) as [s2 f2] eqn:E2.
  destruct (completeThinking a (s2, f2)) as [s3 f3] eqn:E3.
  destruct (accumulateText request sdk a (s3, f3)) as [s4 f4] eqn:E4.
  apply latchFirstThinkingToken_spec in E1 as (Hs1 & Hc1 & Hb1 & Ht1 & Hu1 & Hk1).
  apply accumulateThinking_spec in E2
    as (Hk2 & Hc2 & Hb2 & Hu2 & deltas & Hs2 & Hd1 & Hd2 & Hd3 & Ht2).
  apply completeThinking_spec in E3 as (Hk3 & Hb3 & Hu3 & Hcase3).
  apply accumulateText_spec in E4 as (Hc4 & Ht4 & Hu4 & Hk4 & Hcase4).
  apply finishChunk_spec in H as (Hk5 & Hc5 & Hb5 & Ht5 & Hcase5).
  assert (Htail : ∃ tail, Forall plain tail ∧ sent s' = sent s3 ++ tail).
  { destruct Hcase4 as [(Hs4 & _)|(text & Hs4 & _)];
      destruct Hcase5 as [(_ & Hs5 & _)|(_ & Hs5 & _)]; rewrite Hs5, Hs4.
    - exists []. by rewrite app_nil_r.
    - eexists (_ :: _). split; [|done].
      constructor; [done | apply webSearchChunks_plain].
    - exists [TEXT_DELTA text]. split; [by repeat constructor | done].
    - eexists (_ :: _ :: _). rewrite <- app_assoc. split; [|done].
      repeat constructor. apply webSearchChunks_plain. }
  destruct Htail as (tail & Hplain & Hs').
  split; [|split; [|split]].
  - split.
    + intros Hne. rewrite Hk5, Hk4, Hk3, Hk2, Hk1; [done..|].
      rewrite Hk3, Hk2, Hk1; done.
    + intros Hne. rewrite Hc5, Hc4.
      destruct Hcase3 as [(_ & -> & _)|(Hz & _)]; [congruence|].
      rewrite Hc2, Hc1 in Hz. done.
  - destruct Hcase5 as [(-> & _ & ->)|(-> & _ & ->)];
      by rewrite Hu4, Hu3, Hu2, Hu1.
  - rewrite Hb5. destruct Hcase4 as [(_ & -> & ->)|(text & _ & -> & ->)].
    + congruence.
    + exists text. congruence.
  - exists deltas, tail. repeat (split; [done|]).
    rewrite Ht5, Ht4, Hc5, Hc4, Hs'.
    destruct Hcase3 as [(-> & -> & ->)|(Hz & -> & (ms & ->) & ->)].
    + left. rewrite Hs2, Hs1, Hc2, Hc1, Ht2, Ht1, <- app_assoc. done.
    + right. rewrite Hc2, Hc1 in Hz. split; [done|]. split; [done|].
      split; [|done]. exists ms.
      rewrite Hs2, Hs1, Ht2, Ht1, <- !app_assoc. done.
Qed.

Lemma latchFirstThinkingToken_first a s f s' f' :
  latchFirstThinkingToken request a (s, f) = (s', f') → isFirstChunk f' = isFirstChunk f.
Proof. unfold latchFirstThinkingToken. intros H. by case_match; simplify_eq. Qed.

Lemma accumulateThinking_text a s f s' f' :
  accumulateThinking a (s, f) = (s', f') →
  isFirstChunk f' = isFirstChunk f
  ∧ thinkingContent f' = String.append (thinkingContent f) (reasoningTextOf a).
Proof.
  unfold accumulateThinking, reasoningTextOf. intros H.
  destruct (reasoningContentOf (delta (chunk a))) as [r|];
    [|simplify_eq; by rewrite append_nil_r].
  destruct (Js.truthy (Some r)); simplify_eq; [done|by rewrite append_nil_r].
Qed.

Lemma completeThinking_first a s f s' f' :
  completeThinking a (s, f) = (s', f') → isFirstChunk f' = isFirstChunk f.
Proof.
  unfold completeThinking. intros H.
  destruct (isReasoningJustDone (delta (chunk a)) s) as [justDone s1].
  by case_match; simplify_eq.
Qed.

Lemma accumulateText_text a s f s' f' :
  accumulateText request sdk a (s, f) = (s', f') →
  content f' = String.append (content f) (answerTextOf request sdk a f).
Proof.
  unfold accumulateText, answerTextOf. intros H.
  destruct (delta (chunk a) ≫= delta_content) as [text|];
    [|simplify_eq; by rewrite append_nil_r].
  destruct (Js.truthy (Some text)); [|simplify_eq; by rewrite append_nil_r].
  destruct (isFirstChunk f && (time_first_token_millsec s =? 0)
            && (time_first_token_millsec_delta s =? 0)); by simplify_eq.
Qed.

Lemma answerTextOf_first a f f' :
  isFirstChunk f' = isFirstChunk f →
  answerTextOf request sdk a f' = answerTextOf request sdk a f.
Proof. unfold answerTextOf. by intros ->. Qed.

(** One turn of the loop and the two buffers. *)
Lemma processChunk_buffers a s f s' f' :
  processChunk request sdk a (s, f) = (s', f') →
  content f' = String.append (content f) (answerTextOf request sdk a f)
  ∧ ∃ new,
      sent s' = sent s ++ new
      ∧ ((filter isThinkingComplete new = []
          ∧ thinkingContent f' = String.append (thinkingContent f) (reasoningTextOf a))
         ∨ (time_first_content_millsec s = 0
            ∧ (∃ ms, filter isThinkingComplete new
                     = [THINKING_COMPLETE
                          (String.append (thinkingContent f) (reasoningTextOf a)) ms])
            ∧ thinkingContent f' = "")).
Proof.
  unfold processChunk. intros H.
  destruct (latchFirstThinkingToken request a (s, f)) as [s1 f1] eqn:E1.
  destruct (accumulateThinking a (s1, f1)) as [s2 f2] eqn:E2.
  destruct (completeThinking a (s2, f2)) as [s3 f3] eqn:E3.
  destruct (accumulateText request sdk a (s3, f3)) as [s4 f4] eqn:E4.
  pose proof (latchFirstThinkingToken_first _ _ _ _ _ E1) as Hf1.
  pose proof (accumulateThinking_text _ _ _ _ _ E2) as [Hf2 Htext2].
  pose proof (completeThinking_first _ _ _ _ _ E3) as Hf3.
  pose proof (accumulateText_text _ _ _ _ _ E4) as Htext4.
  apply latchFirstThinkingToken_spec in E1 as (Hs1 & Hc1 & Hb1 & Ht1 & _).
  apply accumulateThinking_spec in E2 as (_ & Hc2 & Hb2 & _ & deltas & Hs2 & Hd1 & _).
  apply completeThinking_spec in E3 as (_ & Hb3 & _ & Hcase3).
  apply accumulateText_spec in E4 as (_ & Ht4 & _ & _ & Hcase4).
  apply finishChunk_spec in H as (_ & _ & Hb5 & Ht5 & Hcase5).
  assert (Htail : ∃ tail, Forall plain tail ∧ sent s' = sent s3 ++ tail).
  { destruct Hcase4 as [(Hs4 & _)|(text & Hs4 & _)];
      destruct Hcase5 as [(_ & Hs5 & _)|(_ & Hs5 & _)]; rewrite Hs5, Hs4.
    - exists []. by rewrite app_nil_r.
    - eexists (_ :: _). split; [|done].
      constructor; [done | apply webSearchChunks_plain].
    - exists [TEXT_DELTA text]. split; [by repeat constructor | done].
    - eexists (_ :: _ :: _). rewrite <- app_assoc. split; [|done].
      repeat constructor. apply webSearchChunks_plain. }
  destruct Htail as (tail & Hplain%plain_no_thinking_complete & Hs').
  split.
  { rewrite Hb5, Htext4, Hb3, Hb2, Hb1. f_equal. apply answerTextOf_first. congruence. }
  rewrite Ht5, Ht4, Hs'.
  destruct Hcase3 as [(-> & _ & ->)|(Hz & _ & (ms & ->) & ->)].
  - exists (deltas ++ tail). rewrite Hs2, Hs1, <- app_assoc. split; [done|]. left.
    rewrite filter_app, Hd1, Hplain, Htext2, Ht1. done.
  - exists (deltas ++ THINKING_COMPLETE (thinkingContent f2) ms :: tail).
    rewrite Hs2, Hs1, <- !app_assoc. split; [done|]. right.
    rewrite Hc2, Hc1 in Hz. split; [done|]. split; [|done].
    exists ms. rewrite filter_app, Hd1, filter_cons_True by done.
    by rewrite Hplain, Htext2, Ht1.
Qed.

Lemma append_same_inv s x : String.append s x = s → x = "".
Proof.
  induction s as [|c s IH]; [done|].
  change (String c (String.append s x) = String c s → x = ""). intros [= H]. by apply IH.
Qed.

(** [consume] goes on with the rest of the stream after each chunk. *)
Lemma consume_cons a rest sf :
  consume request sdk (a :: rest) sf
  = if paused a then sf else consume request sdk rest (processChunk request sdk a sf).
Proof. done. Qed.

(** The loop neither changes a timestamp that is set nor sends a
    [BLOCK_COMPLETE]; it leaves in [lastUsage] the last snapshot of the
    stream, if there is one. *)
Lemma consume_spec arrivals : ∀ s f s' f',
  consume request sdk arrivals (s, f) = (s', f') →
  keepsLatched s s'
  ∧ lastUsage f' = from_option Some (lastUsage f) (last (usageSnapshots arrivals))
  ∧ ∃ new, sent s' = sent s ++ new ∧ filter isBlockComplete new = [].
Proof.
  induction arrivals as [|a rest IH]; intros s f s' f' H.
  - simpl in H. simplify_eq. split; [done|]. split; [done|].
    exists []. by rewrite app_nil_r.
  - rewrite consume_cons in H. cbn [usageSnapshots].
    destruct (paused a).
    { simplify_eq. split; [done|]. split; [done|]. exists []. by rewrite app_nil_r. }
    destruct (processChunk request sdk a (s, f)) as [s1 f1] eqn:E.
    apply processChunk_spec in E
      as ((Hk1 & Hk2) & Hu & _ & deltas & tail & _ & Hd & _ & Hplain & Hcase).
    apply IH in H as ((Hk3 & Hk4) & Hu' & new & Hs & Hnew).
    split; [|split].
    + split; intros Hne.
      * rewrite Hk3; rewrite Hk1; done.
      * rewrite Hk4; rewrite Hk2; done.
    + rewrite Hu', Hu.
      destruct (Js.truthy (finish_reason (chunk a))); [|done].
      destruct (usage (chunk a)) as [u|]; [|done].
      cbn [app]. rewrite last_cons. by destruct (last (usageSnapshots rest)).
    + apply plain_no_block_complete in Hplain.
      destruct Hcase as [(Hs1 & _)|(_ & _ & (ms & Hs1) & _)]; rewrite Hs, Hs1.
      * exists (deltas ++ tail ++ new). rewrite <- !app_assoc. split; [done|].
        by rewrite !filter_app, Hd, Hplain, Hnew.
      * eexists (deltas ++ (_ :: tail) ++ new). rewrite <- !app_assoc. split; [done|].
        rewrite !filter_app, Hd, Hnew.
        rewrite filter_cons_False by (by intros []).
        by rewrite Hplain.
Qed.

Lemma keepsLatched_refl s : keepsLatched s s.
Proof. by split. Qed.

Lemma keepsLatched_trans s1 s2 s3 :
  keepsLatched s1 s2 → keepsLatched s2 s3 → keepsLatched s1 s3.
Proof.
  intros [Ha Hb] [Hc Hd]. split; intros Hne.
  - rewrite Hc; rewrite Ha; done.
  - rewrite Hd; rewrite Hb; done.
Qed.

Lemma keepsLatched_eq s s' :
  time_first_token_millsec s' = time_first_token_millsec s →
  time_first_content_millsec s' = time_first_content_millsec s →
  keepsLatched s s'.
Proof. by split. Qed.

Lemma foldl_fromTools l : ∀ s,
  sent (foldl (λ s r, onChunk (FROM_TOOLS r) s) s l) = sent s ++ (FROM_TOOLS <$> l)
  ∧ time_first_token_millsec (foldl (λ s r, onChunk (FROM_TOOLS r) s) s l)
    = time_first_token_millsec s
  ∧ time_first_content_millsec (foldl (λ s r, onChunk (FROM_TOOLS r) s) s l)
    = time_first_content_millsec s.
Proof.
  induction l as [|r l IH]; intros s; simpl; [by rewrite app_nil_r|].
  destruct (IH (onChunk (FROM_TOOLS r) s)) as (-> & -> & ->). simpl.
  by rewrite <- app_assoc.
Qed.

Lemma fromTools_no_block_complete (l : list (list MCPToolResponse)) :
  filter isBlockComplete (FROM_TOOLS <$> l) = [].
Proof.
  induction l as [|r l IH]; [done|].
  rewrite fmap_cons, filter_cons_False by (by intros []). exact IH.
Qed.

(** The tool call and the transcript it extends touch no timestamp and
    send no [BLOCK_COMPLETE]. *)
Lemma callTools_spec text idx s calls s' :
  callTools sdk text idx s = (calls, s') →
  calls = parseAndCallTools sdk text (toolResponses s) idx
  ∧ keepsLatched s s'
  ∧ ∃ new, sent s' = sent s ++ new ∧ filter isBlockComplete new = [].
Proof.
  unfold callTools. intros H. simplify_eq.
  destruct (foldl_fromTools
    (reported (parseAndCallTools sdk text (toolResponses s) idx))
    (setMessages (reqMessages s)
       (updatedResponses (parseAndCallTools sdk text (toolResponses s) idx)) s))
    as (Hs & Ht & Hc).
  split; [done|]. split; [by apply keepsLatched_eq|].
  eexists. split; [exact Hs|]. apply fromTools_no_block_complete.
Qed.

(** [processStream] in streaming mode, one round unfolded. *)
Lemma processStream_streamed fuel s arrivals idx :
  streamOutput request = true →
  processStream request sdk (S fuel) s (Streamed arrivals) idx
  = let '(s1, f1) := consume request sdk arrivals (s, newFrame) in
    match processToolUses request sdk (processStream request sdk fuel) (content f1) idx s1 with
    | Finished s2 => Finished (finishRound f1 s2)
    | Threw s2 e => Threw s2 e
    | Pending s2 k => Pending s2 k
    end.
Proof. intros Hstream. simpl. by rewrite Hstream. Qed.

Lemma create_streamed messages :
  streamOutput request = true →
  create request sdk messages = Streamed (createStream sdk messages).
Proof. intros Hstream. unfold create. by rewrite Hstream. Qed.

(** A round whose tool call returns nothing ends the request. *)
Lemma round_without_results fuel s arrivals idx :
  streamOutput request = true →
  toolResults
    (callTools sdk (content (consume request sdk arrivals (s, newFrame)).2) idx
       (consume request sdk arrivals (s, newFrame)).1).1 = [] →
  ∃ s', processStream request sdk (S fuel) s (Streamed arrivals) idx = Finished s'.
Proof.
  intros Hstream Hnone. rewrite processStream_streamed by done.
  destruct (consume request sdk arrivals (s, newFrame)) as [s1 f1].
  cbn [fst snd] in Hnone. unfold processToolUses.
  destruct (callTools sdk (content f1) idx s1) as [calls s2].
  cbn [fst snd] in Hnone. rewrite Hnone. simpl. by eexists.
Qed.

(** Against an executor that returns a result every time, every round
    leads to the next: [fuel] rounds on, round [idx + fuel] is due. *)
Lemma always_another_round :
  streamOutput request = true →
  (∀ text responses idx, toolResults (parseAndCallTools sdk text responses idx) ≠ []) →
  ∀ fuel s arrivals idx,
    ∃ s', processStream request sdk fuel s (Streamed arrivals) idx
          = Pending s' (idx + fuel)%nat.
Proof.
  intros Hstream Halways fuel.
  induction fuel as [|fuel IH]; intros s arrivals idx.
  - exists s. simpl. f_equal. lia.
  - rewrite processStream_streamed by done.
    destruct (consume request sdk arrivals (s, newFrame)) as [s1 f1].
    unfold processToolUses.
    destruct (callTools sdk (content f1) idx s1) as [calls s2] eqn:Hcalls.
    apply callTools_spec in Hcalls as (-> & _).
    specialize (Halways (content f1) (toolResponses s1) idx).
    destruct (toolResults (parseAndCallTools sdk (content f1) (toolResponses s1) idx))
      as [|r rs] eqn:Hres; [done|].
    simpl. rewrite create_streamed by done.
    edestruct IH as [s' ->]. exists s'. f_equal. lia.
Qed.

(** Every outcome of [processStream], read for the two timestamps. *)
Lemma processStream_latches fuel : ∀ s stream idx,
  match processStream request sdk fuel s stream idx with
  | Pending s' _ | Threw s' _ => keepsLatched s s'
  | Finished s' =>
      if streamOutput request
      then time_first_token_millsec s' = 0 ∧ time_first_content_millsec s' = 0
      else time_first_token_millsec s' = time_first_token_millsec s
           ∧ time_first_content_millsec s' = time_first_content_millsec s
  end.
Proof.
  induction fuel as [|fuel IH]; intros s stream idx; [apply keepsLatched_refl|].
  destruct (streamOutput request) eqn:Hstream.
  - destruct stream as [arrivals|t completion].
    + rewrite processStream_streamed by done.
      destruct (consume request sdk arrivals (s, newFrame)) as [s1 f1] eqn:Hcons.
      apply consume_spec in Hcons as (Hk1 & _).
      unfold processToolUses.
      destruct (callTools sdk (content f1) idx s1) as [calls s2] eqn:Hcalls.
      apply callTools_spec in Hcalls as (_ & Hk2 & _).
      destruct (0 <? length (toolResults calls))%nat; [|done].
      specialize (IH (extendTranscript request (content f1) calls s2)
                    (create request sdk
                       (reqMessages (extendTranscript request (content f1) calls s2)))
                    (idx + 1)%nat).
      destruct (processStream request sdk fuel _ _ _) as [s3|s3 e|s3 k]; [done|..];
        (eapply keepsLatched_trans; [exact Hk1|]);
        (eapply keepsLatched_trans; [exact Hk2|]); exact IH.
    + simpl. rewrite Hstream. apply keepsLatched_refl.
  - simpl. rewrite Hstream. simpl.
    destruct stream as [arrivals|t completion]; [apply keepsLatched_refl|].
    unfold processWhole. destruct (choices completion) as [|first rest];
      [apply keepsLatched_refl|].
    by destruct (Js.truthy (message first ≫= message_content)).
Qed.

(** A request that is still running after [n] rounds and ends in the
    next one has sent [n + 1] [BLOCK_COMPLETE] chunks. *)
Lemma blocks_counted n : ∀ s stream idx s1 k s',
  processStream request sdk n s stream idx = Pending s1 k →
  processStream request sdk (S n) s stream idx = Finished s' →
  ∃ new, sent s' = sent s ++ new ∧ length (filter isBlockComplete new) = S n.
Proof.
  induction n as [|n IH]; intros s stream idx s1 k s' Hp Hf;
    destruct (streamOutput request) eqn:Hstream.
  - destruct stream as [arrivals|t completion];
      [|simpl in Hf; rewrite Hstream in Hf; done].
    rewrite processStream_streamed in Hf by done.
    destruct (consume request sdk arrivals (s, newFrame)) as [s2 f2] eqn:Hcons.
    apply consume_spec in Hcons as (_ & _ & new1 & Hs1 & Hn1).
    unfold processToolUses in Hf.
    destruct (callTools sdk (content f2) idx s2) as [calls s3] eqn:Hcalls.
    apply callTools_spec in Hcalls as (_ & _ & new2 & Hs2 & Hn2).
    destruct (0 <? length (toolResults calls))%nat; [done|].
    simplify_eq. eexists (new1 ++ new2 ++ [_]).
    unfold finishRound. cbn [sent onChunk setFirstToken setFirstContent].
    rewrite Hs2, Hs1, <- !app_assoc. split; [done|].
    by rewrite !filter_app, Hn1, Hn2.
  - simpl in Hf. rewrite Hstream in Hf. simpl in Hf.
    destruct stream as [arrivals|t completion]; [done|].
    unfold processWhole in Hf.
    destruct (choices completion) as [|first rest]; [done|].
    destruct (Js.truthy (message first ≫= message_content)); simplify_eq;
      cbn [sent onChunk].
    + eexists [_; _]. rewrite <- app_assoc. split; [done|]. done.
    + eexists [_]. split; [done|]. done.
  - destruct stream as [arrivals|t completion];
      [|simpl in Hp; rewrite Hstream in Hp; done].
    rewrite processStream_streamed in Hp by done.
    rewrite processStream_streamed in Hf by done.
    destruct (consume request sdk arrivals (s, newFrame)) as [s2 f2] eqn:Hcons.
    apply consume_spec in Hcons as (_ & _ & new1 & Hs1 & Hn1).
    unfold processToolUses in Hp, Hf.
    destruct (callTools sdk (content f2) idx s2) as [calls s3] eqn:Hcalls.
    apply callTools_spec in Hcalls as (_ & _ & new2 & Hs2 & Hn2).
    destruct (0 <? length (toolResults calls))%nat; [|done].
    destruct (processStream request sdk n _ _ _) as [?|? ?|s4 k4] eqn:Hp'; [done..|].
    destruct (processStream request sdk (S n) _ _ _) as [s5|? ?|? ?] eqn:Hf'; [|done..].
    simplify_eq.
    destruct (IH _ _ _ _ _ _ Hp' Hf') as (new3 & Hs3 & Hn3).
    cbn [sent extendTranscript setMessages] in Hs3.
    eexists (new1 ++ new2 ++ new3 ++ [_]).
    unfold finishRound. cbn [sent onChunk setFirstToken setFirstContent].
    rewrite Hs3, Hs2, Hs1, <- !app_assoc. split; [done|].
    rewrite !filter_app, Hn1, Hn2, !length_app, Hn3. simpl. lia.
  - simpl in Hp. rewrite Hstream in Hp. simpl in Hp.
    destruct stream as [arrivals|t completion]; [done|].
    unfold processWhole in Hp.
    destruct (choices completion) as [|first rest]; done.
Qed.

(** The chunk a finished call of [processStream] sends last: the
    [BLOCK_COMPLETE] of that call, with the usage of its own stream. *)
Lemma finished_last fuel s stream idx s' :
  processStream request sdk fuel s stream idx = Finished s' →
  ∃ body metrics,
    sent s' = body ++ [ BLOCK_COMPLETE
      (match stream with
       | Streamed arrivals => last (usageSnapshots arrivals)
       | Whole _ completion => completion_usage completion
       end) metrics ].
Proof.
  destruct fuel as [|fuel]; [done|]. intros Hf.
  destruct (streamOutput request) eqn:Hstream.
  - destruct stream as [arrivals|t completion];
      [|simpl in Hf; rewrite Hstream in Hf; done].
    rewrite processStream_streamed in Hf by done.
    destruct (consume request sdk arrivals (s, newFrame)) as [s2 f2] eqn:Hcons.
    apply consume_spec in Hcons as (_ & Hu & _).
    destruct (processToolUses request sdk _ _ _ _) as [s3|? ?|? ?]; [|done..].
    simplify_eq. unfold finishRound, blockComplete.
    cbn [sent onChunk setFirstToken setFirstContent].
    rewrite Hu. do 2 eexists. f_equal. f_equal. f_equal.
    by destruct (last (usageSnapshots arrivals)).
  - simpl in Hf. rewrite Hstream in Hf. simpl in Hf.
    destruct stream as [arrivals|t completion]; [done|].
    unfold processWhole in Hf.
    destruct (choices completion) as [|first rest]; [done|].
    simplify_eq. cbn [sent onChunk]. by do 2 eexists.
Qed.

Lemma thinking_complete_found pre text ms post :
  filter isThinkingComplete (pre ++ THINKING_COMPLETE text ms :: post) ≠ [].
Proof.
  rewrite filter_app, filter_cons_True by done.
  by destruct (filter isThinkingComplete pre).
Qed.

(** One turn of the loop keeps [thinkingTrace], as long as the clock does
    not read 0. *)
Lemma processChunk_thinkingTrace a s f s' f' trace :
  now a ≠ 0 →
  processChunk request sdk a (s, f) = (s', f') →
  thinkingTrace trace (thinkingContent f) →
  (filter isThinkingComplete trace ≠ [] → time_first_content_millsec s ≠ 0) →
  ∃ new, sent s' = sent s ++ new
         ∧ thinkingTrace (trace ++ new) (thinkingContent f')
         ∧ (filter isThinkingComplete (trace ++ new) ≠ [] →
              time_first_content_millsec s' ≠ 0).
Proof.
  intros Hnow Hstep Htrace Hset.
  apply processChunk_spec in Hstep
    as (_ & _ & _ & deltas & tail & Hd & _ & _ & Hplain & Hcase).
  pose proof (plain_thinkingDeltaText _ Hplain) as Htail.
  apply plain_no_thinking_complete in Hplain.
  destruct Hcase as [(Hs & Hc & Hb)|(Hz & Hc & (ms & Hs) & Hb)].
  - exists (deltas ++ tail). split; [done|].
    destruct Htrace as [(Hnone & Hbuf)|(pre & ms & post & -> & Hpre & Hpost & Hbuf)].
    + split.
      * left. rewrite !filter_app, Hnone, Hd, Hplain. split; [done|].
        by rewrite Hb, Hbuf, !thinkingDeltaText_app, Htail, append_nil_r.
      * rewrite !filter_app, Hnone, Hd, Hplain. done.
    + split.
      * right. exists pre, ms, (post ++ deltas ++ tail).
        rewrite <- app_assoc. split; [done|]. split; [done|].
        rewrite !filter_app, Hpost, Hd, Hplain. split; [done|].
        by rewrite Hb, Hbuf, !thinkingDeltaText_app, Htail, append_nil_r.
      * intros _. rewrite Hc. apply Hset, thinking_complete_found.
  - eexists. split; [exact Hs|].
    destruct Htrace as [(Hnone & Hbuf)|(pre & ms' & post & -> & _)];
      [|destruct Hset; [apply thinking_complete_found | done]].
    split; [|intros _; by rewrite Hc].
    right. exists (trace ++ deltas), ms, tail.
    rewrite thinkingDeltaText_app, <- Hbuf, <- app_assoc.
    split; [done|]. rewrite filter_app, Hnone, Hd.
    split; [done|]. split; [done|]. by rewrite Hb, Htail.
Qed.

Lemma consume_thinkingTrace arrivals : ∀ s f s' f' trace,
  Forall (λ a, now a ≠ 0) arrivals →
  consume request sdk arrivals (s, f) = (s', f') →
  thinkingTrace trace (thinkingContent f) →
  (filter isThinkingComplete trace ≠ [] → time_first_content_millsec s ≠ 0) →
  ∃ new, sent s' = sent s ++ new ∧ thinkingTrace (trace ++ new) (thinkingContent f').
Proof.
  induction arrivals as [|a rest IH]; intros s f s' f' trace Hclock Hrun Htrace Hset.
  - simpl in Hrun. simplify_eq. exists []. by rewrite !app_nil_r.
  - rewrite consume_cons in Hrun. apply Forall_cons in Hclock as [Hnow Hclock].
    destruct (paused a).
    { simplify_eq. exists []. by rewrite !app_nil_r. }
    destruct (processChunk request sdk a (s, f)) as [s1 f1] eqn:Hstep.
    destruct (processChunk_thinkingTrace _ _ _ _ _ _ Hnow Hstep Htrace Hset)
      as (new1 & Hs1 & Htrace1 & Hset1).
    destruct (IH _ _ _ _ _ Hclock Hrun Htrace1 Hset1) as (new2 & Hs2 & Htrace2).
    exists (new1 ++ new2). rewrite Hs2, Hs1, <- app_assoc. split; [done|].
    by rewrite app_assoc.
Qed.

(** Stages that a chunk without the field they read passes through. *)
Lemma latchFirstThinkingToken_id a sf :
  Js.truthy (reasoningContentOf (delta (chunk a))) = false →
  latchFirstThinkingToken request a sf = sf.
Proof.
  intros H. destruct sf as [s f]. unfold latchFirstThinkingToken.
  by rewrite H, andb_false_r.
Qed.

Lemma accumulateThinking_id a sf :
  Js.truthy (reasoningContentOf (delta (chunk a))) = false →
  accumulateThinking a sf = sf.
Proof.
  intros H. destruct sf as [s f]. unfold accumulateThinking.
  destruct (reasoningContentOf (delta (chunk a))); [|done]. by rewrite H.
Qed.

Lemma completeThinking_id a sf :
  Js.truthy (delta (chunk a) ≫= delta_content) = false →
  completeThinking a sf = sf.
Proof.
  intros H. destruct sf as [s f]. unfold completeThinking, isReasoningJustDone.
  destruct (delta (chunk a) ≫= delta_content); [|done]. by rewrite H.
Qed.

Lemma accumulateText_id a sf :
  Js.truthy (delta (chunk a) ≫= delta_content) = false →
  accumulateText request sdk a sf = sf.
Proof.
  intros H. destruct sf as [s f]. unfold accumulateText.
  destruct (delta (chunk a) ≫= delta_content); [|done]. by rewrite H.
Qed.

Lemma finishChunk_id a sf :
  Js.truthy (finish_reason (chunk a)) = false →
  finishChunk request sdk a sf = sf.
Proof.
  intros H. destruct sf as [s f]. unfold finishChunk. by rewrite H.
Qed.

Lemma webSearchChunks_none c :
  delta c ≫= annotations = None → citations c = None → web_search c = None →
  search_results c = None → webSearchChunks request sdk c = [].
Proof.
  intros H1 H2 H3 H4. unfold webSearchChunks. rewrite H1, H2, H3, H4.
  by repeat case_match.
Qed.

(** The loop body on the three kinds of sample chunk. *)
Lemma processChunk_onlyReasoning t text sf :
  processChunk request sdk (arrive t (onlyReasoning text)) sf
  = accumulateThinking (arrive t (onlyReasoning text))
      (latchFirstThinkingToken request (arrive t (onlyReasoning text)) sf).
Proof.
  unfold processChunk.
  by rewrite finishChunk_id, accumulateText_id, completeThinking_id.
Qed.

Lemma processChunk_onlyContent t text sf :
  processChunk request sdk (arrive t (onlyContent text)) sf
  = accumulateText request sdk (arrive t (onlyContent text))
      (completeThinking (arrive t (onlyContent text)) sf).
Proof.
  unfold processChunk.
  by rewrite finishChunk_id, accumulateThinking_id, latchFirstThinkingToken_id.
Qed.

Lemma processChunk_onlyFinish t u s f :
  processChunk request sdk (arrive t (onlyFinish u)) (s, f)
  = (onChunk (TEXT_COMPLETE (content f)) s,
     setFinals (t - start_time_millsec request) (final_time_thinking_millsec_delta f)
       (match u with Some u => Some u | None => lastUsage f end) f).
Proof.
  unfold processChunk.
  rewrite accumulateText_id, completeThinking_id, accumulateThinking_id,
    latchFirstThinkingToken_id by done.
  unfold finishChunk. cbn [finish_reason chunk arrive onlyFinish chunkOf Js.truthy].
  rewrite webSearchChunks_none by done. done.
Qed.

(** C5. On the chunks {reasoning:"think1"}, {reasoning:"think2"},
    {content:"Answer"}, {finish:true} of a new streamed request (web search
    off, whatever the arrival times), with a tool executor that finds no
    call in "Answer", [processStream] finishes in its first round and has
    sent exactly thinking-delta("think1"), thinking-delta("think2"),
    thinking-complete("think1think2"), text-delta("Answer"),
    text-complete("Answer"), block-complete, in this order. *)
Theorem reasoning_then_answer_scenario fuel t1 t2 t3 t4 :
  streamOutput request = true →
  enableWebSearch request = false →
  toolResults (parseAndCallTools sdk "Answer" [] 0) = [] →
  reported (parseAndCallTools sdk "Answer" [] 0) = [] →
  ∃ s', processStream request sdk (S fuel) (initialClosure request)
          (Streamed (scenario t1 t2 t3 t4)) 0 = Finished s'
        ∧ labelOf <$> sent s'
          = [ thinking_delta "think1"; thinking_delta "think2";
              thinking_complete "think1think2"; text_delta "Answer";
              text_complete "Answer"; block_complete ].
Proof.
  intros Hstream Hweb Hres Hrep.
  rewrite processStream_streamed by done.
  unfold scenario. cbn [consume paused arrive].
  change {| paused := false; now := t1; chunk := onlyReasoning "think1" |}
    with (arrive t1 (onlyReasoning "think1")).
  change {| paused := false; now := t2; chunk := onlyReasoning "think2" |}
    with (arrive t2 (onlyReasoning "think2")).
  change {| paused := false; now := t3; chunk := onlyContent "Answer" |}
    with (arrive t3 (onlyContent "Answer")).
  change {| paused := false; now := t4; chunk := onlyFinish None |}
    with (arrive t4 (onlyFinish None)).
  rewrite !processChunk_onlyReasoning, processChunk_onlyContent.
  unfold initialClosure, latchFirstThinkingToken, accumulateThinking.
  simpl. rewrite andb_false_r. simpl.
  unfold completeThinking, isReasoningJustDone. simpl.
  unfold accumulateText, convertedContent. rewrite Hweb. simpl.
  destruct ((t1 =? 0) && (t1 - start_time_millsec request =? 0));
    rewrite processChunk_onlyFinish; unfold processToolUses, callTools; simpl;
    rewrite Hres, Hrep; simpl; (eexists; split; [reflexivity|]); reflexivity.
Qed.

End Stages.

Lemma reasoning_then_answer_scenario_witness :
  streamOutput sampleRequest = true
  ∧ enableWebSearch sampleRequest = false
  ∧ ∃ s', processStream sampleRequest quietSdk 1 (initialClosure sampleRequest)
            (Streamed (scenario 1010 1020 1030 1040)) 0 = Finished s'
          ∧ labelOf <$> sent s'
            = [ thinking_delta "think1"; thinking_delta "think2";
                thinking_complete "think1think2"; text_delta "Answer";
                text_complete "Answer"; block_complete ].
Proof.
  split; [reflexivity|]. split; [reflexivity|].
  apply (reasoning_then_answer_scenario sampleRequest quietSdk 0 1010 1020 1030 1040);
    reflexivity.
Defined.

(** *** The tool loop has no bound (C1) *)

Lemma tool_loop_never_exhausted :
  (∃ s, completions sampleRequest loopingSdk 64 = Pending s 64)
  ∧ ¬ (∃ fuel s, completions sampleRequest loopingSdk fuel = Finished s)
  ∧ ¬ (∃ fuel s e, completions sampleRequest loopingSdk fuel = Threw s e).
Proof.
  assert (Hpending : ∀ fuel, ∃ s, completions sampleRequest loopingSdk fuel = Pending s fuel).
  { intros fuel. unfold completions. rewrite create_streamed by done.
    apply (always_another_round sampleRequest loopingSdk eq_refl); by intros. }
  split; [apply Hpending|].
  split.
  - intros (fuel & s & H). destruct (Hpending fuel) as [s' H']. congruence.
  - intros (fuel & s & e & H). destruct (Hpending fuel) as [s' H']. congruence.
Qed.

(** A round ends the request by itself only if its tool call returns no
    result: otherwise the next round is due. *)
Lemma round_with_results (request : Request) (sdk : Collaborators) s arrivals idx :
  streamOutput request = true →
  toolResults
    (callTools sdk (content (consume request sdk arrivals (s, newFrame)).2) idx
       (consume request sdk arrivals (s, newFrame)).1).1 ≠ [] →
  ∃ s', processStream request sdk 1 s (Streamed arrivals) idx = Pending s' (idx + 1)%nat.
Proof.
  intros Hstream Hsome. rewrite processStream_streamed by done.
  destruct (consume request sdk arrivals (s, newFrame)) as [s1 f1].
  cbn [fst snd] in Hsome. unfold processToolUses.
  destruct (callTools sdk (content f1) idx s1) as [calls s2].
  cbn [fst snd] in Hsome.
  destruct (toolResults calls) as [|r results]; [done|]. simpl. by eexists.
Qed.

(** C1, as the code has it. [processStream] and [processToolUses] know no
    maximum round count and no tool-loop-exhausted error: in streaming mode
    a round whose tool call returns no result ends the request, and against
    an executor that returns a result in every round the recursion goes on
    for ever: however many rounds are run, the next one is due, and the
    request has neither finished nor thrown. A round ends the request
    exactly when its tool call returns no result: run for one round, the
    request has finished if and only if the tool call returned none. *)
Theorem tool_loop_runs_while_tools_return (request : Request) (sdk : Collaborators) :
  streamOutput request = true →
  (∀ fuel s arrivals idx,
     toolResults
       (callTools sdk (content (consume request sdk arrivals (s, newFrame)).2) idx
          (consume request sdk arrivals (s, newFrame)).1).1 = [] →
     ∃ s', processStream request sdk (S fuel) s (Streamed arrivals) idx = Finished s')
  ∧ ((∀ text responses idx,
        toolResults (parseAndCallTools sdk text responses idx) ≠ []) →
     ∀ fuel s arrivals idx,
       ∃ s', processStream request sdk fuel s (Streamed arrivals) idx
             = Pending s' (idx + fuel)%nat)
  ∧ (∀ s arrivals idx,
       (∃ s', processStream request sdk 1 s (Streamed arrivals) idx = Finished s')
       ↔ toolResults
           (callTools sdk (content (consume request sdk arrivals (s, newFrame)).2) idx
              (consume request sdk arrivals (s, newFrame)).1).1 = []).
Proof.
  intros Hstream. split; [|split].
  - intros fuel s arrivals idx. by apply round_without_results.
  - intros Halways. by apply always_another_round.
  - intros s arrivals idx. split; [|by apply round_without_results].
    intros [s' Hfinished].
    destruct (toolResults _) as [|r results] eqn:Hresults; [done|].
    destruct (round_with_results request sdk s arrivals idx Hstream) as [s1 Hpending];
      [by rewrite Hresults|].
    congruence.
Qed.

Lemma tool_loop_runs_while_tools_return_witness :
  streamOutput sampleRequest = true
  ∧ ∃ s', processStream sampleRequest loopingSdk 5 (started sampleRequest)
            (Streamed (callStream [])) 0 = Pending s' 5.
Proof.
  split; [reflexivity|].
  apply (proj2 (tool_loop_runs_while_tools_return sampleRequest loopingSdk eq_refl)).
  intros text responses idx. simpl. discriminate.
Defined.

(** *** The two timestamps (C2) *)

Lemma later_round_resets_timestamps :
  ∃ s1 s2,
    processStream sampleRequest twoRoundSdk 1 (started sampleRequest)
      (create sampleRequest twoRoundSdk (reqMessages (started sampleRequest))) 0
    = Pending s1 1
    ∧ time_first_token_millsec s1 = 1010
    ∧ time_first_content_millsec s1 = 1020
    ∧ processStream sampleRequest twoRoundSdk 1 s1
        (create sampleRequest twoRoundSdk (reqMessages s1)) 1
      = Finished s2
    ∧ time_first_token_millsec s2 = 0
    ∧ time_first_content_millsec s2 = 0.
Proof. do 2 eexists. vm_compute. repeat split; reflexivity. Qed.

(** C2, as the code has it. A first-token or first-content timestamp that
    is set is changed neither by the chunk loop of a round nor on the way
    into any later round of the request, so no later round latches it again;
    but every streamed [processStream] call ends by setting both to 0 (after
    its [BLOCK_COMPLETE]), so a finished round hands them back reset. *)
Theorem timestamps_kept_until_a_round_ends (request : Request) (sdk : Collaborators)
    (fuel : nat) (s : Closure) (stream : Upstream) (idx : nat) :
  (∀ arrivals f, keepsLatched s (consume request sdk arrivals (s, f)).1)
  ∧ match processStream request sdk fuel s stream idx with
    | Pending s' _ | Threw s' _ => keepsLatched s s'
    | Finished s' =>
        if streamOutput request
        then time_first_token_millsec s' = 0 ∧ time_first_content_millsec s' = 0
        else time_first_token_millsec s' = time_first_token_millsec s
             ∧ time_first_content_millsec s' = time_first_content_millsec s
    end.
Proof.
  split; [|apply processStream_latches].
  intros arrivals f.
  destruct (consume request sdk arrivals (s, f)) as [s' f'] eqn:H.
  by apply consume_spec in H as (Hk & _).
Qed.

Lemma timestamps_kept_until_a_round_ends_witness :
  time_first_token_millsec afterFirstMixed.1 ≠ 0
  ∧ time_first_token_millsec afterSecondMixed.1
    = time_first_token_millsec afterFirstMixed.1.
Proof.
  split; [vm_compute; discriminate|].
  apply (proj1 (timestamps_kept_until_a_round_ends sampleRequest quietSdk 0
                  afterFirstMixed.1 (Streamed []) 0)
           [arrive 1020 (reasoningAndContent "c" "d")] afterFirstMixed.2).
  vm_compute. discriminate.
Defined.

(** *** The two buffers and the thinking chunks (C6) *)

Lemma both_buffers_extended_by_one_chunk :
  thinkingContent afterFirstMixed.2 = ""
  ∧ content afterFirstMixed.2 = "b"
  ∧ thinkingContent afterSecondMixed.2 = "c"
  ∧ content afterSecondMixed.2 = "bd"
  ∧ extended (thinkingContent afterFirstMixed.2) (thinkingContent afterSecondMixed.2)
  ∧ extended (content afterFirstMixed.2) (content afterSecondMixed.2).
Proof.
  split; [vm_compute; reflexivity|]. split; [vm_compute; reflexivity|].
  split; [vm_compute; reflexivity|]. split; [vm_compute; reflexivity|].
  split.
  - exists "c". split; [discriminate | vm_compute; reflexivity].
  - exists "d". split; [discriminate | vm_compute; reflexivity].
Qed.

(** C6, as the code has it. In one round (clock readings not 0) at most one
    thinking-complete is sent; its text is exactly the texts of the
    thinking-delta chunks sent before it in that round, joined in order, and
    the reasoning buffer is emptied with it: at the end of the loop the
    buffer holds the texts of the deltas sent after it (of all deltas, if
    none was sent). The two buffers are not exclusive. Every chunk appends
    its answer text (none, or [delta.content] as the link converters leave
    it) to the answer buffer, which is left as it was exactly when that text
    is empty; and every chunk appends its reasoning text (none, or
    [delta.reasoning_content || delta.reasoning]) to the reasoning buffer:
    if the chunk then sends the thinking-complete, which it can only while
    the first-content time is 0, that chunk carries the buffer so extended
    and the buffer is left empty, otherwise the buffer stays so extended.
    Hence a chunk with reasoning text and answer text that comes after the
    first-content time was set extends both buffers. *)
Theorem thinking_complete_carries_the_deltas (request : Request) (sdk : Collaborators)
    (arrivals : list Arrival) (s s' : Closure) (f' : Frame) :
  Forall (λ a, now a ≠ 0) arrivals →
  consume request sdk arrivals (s, newFrame) = (s', f') →
  (∃ new, sent s' = sent s ++ new ∧ thinkingTrace new (thinkingContent f'))
  ∧ (∀ a s0 f0,
       content (processChunk request sdk a (s0, f0)).2
       = String.append (content f0) (answerTextOf request sdk a f0)
       ∧ (content (processChunk request sdk a (s0, f0)).2 = content f0
          ↔ answerTextOf request sdk a f0 = ""))
  ∧ (∀ a s0 f0, ∃ new,
       sent (processChunk request sdk a (s0, f0)).1 = sent s0 ++ new
       ∧ ((filter isThinkingComplete new = []
           ∧ thinkingContent (processChunk request sdk a (s0, f0)).2
             = String.append (thinkingContent f0) (reasoningTextOf a))
          ∨ (time_first_content_millsec s0 = 0
             ∧ (∃ ms, filter isThinkingComplete new
                      = [THINKING_COMPLETE
                           (String.append (thinkingContent f0) (reasoningTextOf a)) ms])
             ∧ thinkingContent (processChunk request sdk a (s0, f0)).2 = "")))
  ∧ (∀ a s0 f0,
       time_first_content_millsec s0 ≠ 0 →
       reasoningTextOf a ≠ "" →
       answerTextOf request sdk a f0 ≠ "" →
       extended (thinkingContent f0)
         (thinkingContent (processChunk request sdk a (s0, f0)).2)
       ∧ extended (content f0) (content (processChunk request sdk a (s0, f0)).2)).
Proof.
  intros Hclock Hrun. split; [|split; [|split]].
  - destruct (consume_thinkingTrace request sdk arrivals s newFrame s' f' [] Hclock Hrun)
      as (new & Hs & Htrace); [by left | done |].
    by exists new.
  - intros a s0 f0.
    destruct (processChunk request sdk a (s0, f0)) as [s1 f1] eqn:Hstep.
    apply processChunk_buffers in Hstep as [Hcontent _]. cbn [snd].
    split; [done|]. rewrite Hcontent. split.
    + apply append_same_inv.
    + intros ->. apply append_nil_r.
  - intros a s0 f0.
    destruct (processChunk request sdk a (s0, f0)) as [s1 f1] eqn:Hstep.
    apply processChunk_buffers in Hstep as [_ (new & Hsent & Hcase)].
    exists new. by cbn [fst snd].
  - intros a s0 f0 Hset Hreasoning Hanswer.
    destruct (processChunk request sdk a (s0, f0)) as [s1 f1] eqn:Hstep.
    apply processChunk_buffers in Hstep as [Hcontent (new & _ & Hcase)]. cbn [snd].
    destruct Hcase as [(_ & Hthinking)|(Hzero & _)]; [|done].
    split; [by exists (reasoningTextOf a) | by exists (answerTextOf request sdk a f0)].
Qed.

Lemma thinking_complete_carries_the_deltas_witness :
  Forall (λ a, now a ≠ 0) (scenario 1010 1020 1030 1040)
  ∧ (∃ new,
       sent (consume sampleRequest quietSdk (scenario 1010 1020 1030 1040)
               (started sampleRequest, newFrame)).1
       = sent (started sampleRequest) ++ new
       ∧ thinkingTrace new
           (thinkingContent
              (consume sampleRequest quietSdk (scenario 1010 1020 1030 1040)
                 (started sampleRequest, newFrame)).2))
  ∧ time_first_content_millsec afterFirstMixed.1 ≠ 0
  ∧ reasoningTextOf (arrive 1020 (reasoningAndContent "c" "d")) ≠ ""
  ∧ answerTextOf sampleRequest quietSdk (arrive 1020 (reasoningAndContent "c" "d"))
      afterFirstMixed.2 ≠ ""
  ∧ extended (thinkingContent afterFirstMixed.2)
      (thinkingContent
         (processChunk sampleRequest quietSdk (arrive 1020 (reasoningAndContent "c" "d"))
            (afterFirstMixed.1, afterFirstMixed.2)).2)
  ∧ extended (content afterFirstMixed.2)
      (content
         (processChunk sampleRequest quietSdk (arrive 1020 (reasoningAndContent "c" "d"))
            (afterFirstMixed.1, afterFirstMixed.2)).2).
Proof.
  assert (Hclock : Forall (λ a, now a ≠ 0) (scenario 1010 1020 1030 1040)).
  { repeat constructor; simpl; discriminate. }
  assert (Hset : time_first_content_millsec afterFirstMixed.1 ≠ 0).
  { vm_compute. discriminate. }
  assert (Hreasoning : reasoningTextOf (arrive 1020 (reasoningAndContent "c" "d")) ≠ "").
  { vm_compute. discriminate. }
  assert (Hanswer : answerTextOf sampleRequest quietSdk
                      (arrive 1020 (reasoningAndContent "c" "d")) afterFirstMixed.2 ≠ "").
  { vm_compute. discriminate. }
  destruct (thinking_complete_carries_the_deltas sampleRequest quietSdk
              (scenario 1010 1020 1030 1040) (started sampleRequest) _ _ Hclock
              (surjective_pairing _)) as (Htrace & _ & _ & Hboth).
  split; [exact Hclock|]. split; [exact Htrace|].
  split; [exact Hset|]. split; [exact Hreasoning|]. split; [exact Hanswer|].
  exact (Hboth _ _ _ Hset Hreasoning Hanswer).
Defined.

(** *** [BLOCK_COMPLETE] and usage (C8) *)

Lemma two_rounds_send_two_block_completes :
  ∃ s m1 m0,
    completions sampleRequest twoRoundSdk 2 = Finished s
    ∧ filter isBlockComplete (sent s)
      = [ BLOCK_COMPLETE (Some (usageOf 9)) m1; BLOCK_COMPLETE (Some (usageOf 7)) m0 ]
    ∧ last (sent s) = Some (BLOCK_COMPLETE (Some (usageOf 7)) m0).
Proof. do 3 eexists. vm_compute. repeat split; reflexivity. Qed.

(** C8, as the code has it. Every round sends its own [BLOCK_COMPLETE] when
    it ends: a request that is still running after [n] rounds and finishes
    in the next has sent exactly [n + 1] of them (exactly one when no tool
    call is made). The last chunk of the trace is the [BLOCK_COMPLETE] of
    the outermost round, and its usage is that round's own [lastUsage]: the
    last usage snapshot on a chunk with a finish reason in the stream of
    round 0 (the usage of the completion when not streaming), not that of
    later rounds. *)
Theorem one_block_complete_per_round (request : Request) (sdk : Collaborators)
    (n : nat) (s' : Closure) :
  (∃ s k, completions request sdk n = Pending s k) →
  completions request sdk (S n) = Finished s' →
  length (filter isBlockComplete (sent s')) = S n
  ∧ ∃ body metrics,
      sent s' = body ++ [ BLOCK_COMPLETE
        (if streamOutput request
         then last (usageSnapshots (createStream sdk (reqMessages (started request))))
         else completion_usage (createCompletion sdk (reqMessages (started request))).2)
        metrics ].
Proof.
  intros (s & k & Hp) Hf. unfold completions in Hp, Hf. split.
  - destruct (blocks_counted request sdk n _ _ _ _ _ _ Hp Hf) as (new & Hs & Hn).
    rewrite Hs. cbn [sent onChunk initialClosure]. rewrite filter_app, length_app, Hn.
    done.
  - apply finished_last in Hf as (body & metrics & Hs).
    exists body, metrics. rewrite Hs. unfold create, started.
    destruct (streamOutput request); [done|].
    by destruct (createCompletion sdk _).
Qed.

Lemma one_block_complete_per_round_witness :
  (∃ s k, completions sampleRequest twoRoundSdk 1 = Pending s k)
  ∧ ∃ s', completions sampleRequest twoRoundSdk 2 = Finished s'
          ∧ length (filter isBlockComplete (sent s')) = 2%nat.
Proof.
  assert (Hp : ∃ s k, completions sampleRequest twoRoundSdk 1 = Pending s k).
  { do 2 eexists. vm_compute. reflexivity. }
  split; [exact Hp|].
  eexists. split; [vm_compute; reflexivity|].
  apply (one_block_complete_per_round sampleRequest twoRoundSdk 1 _ Hp).
  vm_compute. reflexivity.
Defined.

(** *** [check] (C7) *)

(** C7, at the failing input. A non-streamed response whose first choice has a
    message without content is reported valid by [check]: only a missing
    response or a missing message raises 'Empty response', and an empty
    [choices] array fails with a TypeError instead. The streaming branch of
    the same function does look at the content: chunks without content end
    in 'Empty streaming response'. *)
Theorem check_accepts_a_message_without_content (m : Model)
    (whole : Settled (option ChatCompletion))
    (streamed : Settled (list ChatCompletionChunk)) :
  check (Some m) false
    (Resolved (Some {| choices := [ {| message := Some {| message_content := None |} |} ];
                       completion_usage := None |})) streamed
  = {| valid := true; error := None |}
  ∧ check (Some m) false
      (Resolved (Some {| choices := [ {| message := Some {| message_content := Some "" |} |} ];
                         completion_usage := None |})) streamed
    = {| valid := true; error := None |}
  ∧ check (Some m) false (Resolved None) streamed
    = {| valid := false; error := Some (Js.Error "Empty response") |}
  ∧ check (Some m) false
      (Resolved (Some {| choices := [ {| message := None |} ]; completion_usage := None |}))
      streamed
    = {| valid := false; error := Some (Js.Error "Empty response") |}
  ∧ check (Some m) false
      (Resolved (Some {| choices := []; completion_usage := None |})) streamed
    = {| valid := false;
         error := Some (Js.TypeError
           "Cannot read properties of undefined (reading 'message')") |}
  ∧ check (Some m) true whole (Resolved [onlyFinish None])
    = {| valid := false; error := Some (Js.Error "Empty streaming response") |}.
Proof. repeat split. Qed.

End OpenAIProviderFacts.

(** ** More on message interleaving *)

Module ModelMessageMore.

Import ModelMessageService ModelMessageFacts.

Lemma separatedAfter_alternating l : ∀ p,
  rolesAlternate (p :: l) → separatedAfter (role p) l = l.
Proof.
  induction l as [|m l IH]; intros p Halt; [done|]. simpl.
  rewrite bool_decide_eq_false_2.
  - simpl. f_equal. apply IH. intros i a b Ha Hb. by apply (Halt (S i)).
  - intros E. by apply (Halt 0%nat p m).
Qed.

Lemma separated_alternating l : rolesAlternate l → separated l = l.
Proof.
  destruct l as [|m l]; [done|]. intros Halt. simpl. f_equal.
  by apply separatedAfter_alternating.
Qed.

Lemma processReqMessages_cases m l :
  processReqMessages m l = l ∨ processReqMessages m l = separated l.
Proof.
  unfold processReqMessages.
  destruct (needStrictlyInterleaveUserAndAssistantMessages m); simpl.
  - right. apply interleave_separated.
  - by left.
Qed.

Lemma repeatsAfter_bound l : ∀ r, repeatsAfter r l ≤ length l.
Proof.
  induction l as [|m l IH]; intros r; simpl; [done|].
  specialize (IH (role m)). case_bool_decide; lia.
Qed.

Lemma separatedAfter_last l : ∀ p r, last (p :: separatedAfter r l) = last (p :: l).
Proof.
  induction l as [|m l IH]; intros p r; [done|]. simpl separatedAfter.
  case_bool_decide; simpl app.
  - rewrite !last_cons_cons. apply (IH m).
  - rewrite !last_cons_cons. apply (IH m).
Qed.

Lemma separatedAfter_entries l : ∀ r x,
  x ∈ separatedAfter r l →
  x ∈ l ∨ (content x = Text "" ∧ (role x = user ∨ role x = assistant)).
Proof.
  induction l as [|m l IH]; intros r x; simpl; [by intros ?%elem_of_nil|].
  assert (Hrest : x ∈ m :: separatedAfter (role m) l →
    x ∈ m :: l ∨ (content x = Text "" ∧ (role x = user ∨ role x = assistant))).
  { intros [->|Hx]%elem_of_cons; [left; by left|].
    destruct (IH _ _ Hx) as [?|?]; [left; by right | by right]. }
  case_bool_decide; simpl; [|done].
  intros [->|Hx]%elem_of_cons; [|by apply Hrest].
  right. unfold separator. simpl. split; [done|]. case_bool_decide; auto.
Qed.

(** X1. Normalising twice is normalising once, for every model: the output
    of [processReqMessages] is a fixed point of it. *)
Theorem processReqMessages_idempotent (m : Model)
    (messages : list ChatCompletionMessageParam) :
  processReqMessages m (processReqMessages m messages) = processReqMessages m messages.
Proof.
  unfold processReqMessages.
  destruct (needStrictlyInterleaveUserAndAssistantMessages m); simpl; [|done].
  rewrite !interleave_separated.
  apply separated_alternating, rolesAlternate_separated.
Qed.

(** X2. For 'deepseek-reasoner' the messages come back unchanged exactly
    when no two neighbours of the input have the same role. *)
Theorem unchanged_iff_roles_alternate (m : Model)
    (messages : list ChatCompletionMessageParam) :
  id m = "deepseek-reasoner" →
  (processReqMessages m messages = messages ↔ rolesAlternate messages).
Proof.
  intros Hid. rewrite processReqMessages_deepseek by done. split.
  - intros <-. apply rolesAlternate_separated.
  - apply separated_alternating.
Qed.

Lemma unchanged_iff_roles_alternate_witness :
  id deepseekReasoner = "deepseek-reasoner"
  ∧ rolesAlternate
      [ {| role := user; content := Text "q" |}; {| role := assistant; content := Text "a" |} ].
Proof.
  split; [reflexivity|].
  apply (unchanged_iff_roles_alternate deepseekReasoner
           [ {| role := user; content := Text "q" |};
             {| role := assistant; content := Text "a" |} ] eq_refl).
  reflexivity.
Defined.

(** X3. Whatever the model, [processReqMessages] only adds empty user or
    assistant messages: every entry of the output is an input message or
    such an empty message; the empty list comes back empty; the output of a
    list that is not empty has at least the length of the input and less
    than twice that; and the output begins and ends with the same message as
    the input. *)
Theorem processReqMessages_adds_only_separators (m : Model)
    (messages : list ChatCompletionMessageParam) :
  (∀ x, x ∈ processReqMessages m messages →
        x ∈ messages ∨ (content x = Text "" ∧ (role x = user ∨ role x = assistant)))
  ∧ (messages = [] → processReqMessages m messages = [])
  ∧ length messages ≤ length (processReqMessages m messages)
  ∧ (messages ≠ [] → length (processReqMessages m messages) < 2 * length messages)
  ∧ head (processReqMessages m messages) = head messages
  ∧ last (processReqMessages m messages) = last messages.
Proof.
  destruct (processReqMessages_cases m messages) as [->| ->].
  { split; [by left|]. split; [done|]. split; [done|]. split; [|done].
    destruct messages; [done|]. simpl. lia. }
  destruct messages as [|p l]; simpl.
  { split; [by intros x ?%elem_of_nil|]. done. }
  split; [|split; [|split; [|split; [|split]]]].
  - intros x [->|Hx]%elem_of_cons; [left; by left|].
    destruct (separatedAfter_entries _ _ _ Hx) as [?|?]; [left; by right | by right].
  - done.
  - rewrite length_separatedAfter. lia.
  - intros _. rewrite length_separatedAfter.
    pose proof (repeatsAfter_bound l (role p)). lia.
  - done.
  - apply separatedAfter_last.
Qed.

Lemma processReqMessages_adds_only_separators_witness :
  length (processReqMessages deepseekReasoner
            [ {| role := user; content := Text "a" |};
              {| role := user; content := Text "b" |} ]) < 4.
Proof.
  apply (processReqMessages_adds_only_separators deepseekReasoner
           [ {| role := user; content := Text "a" |};
             {| role := user; content := Text "b" |} ]).
  discriminate.
Defined.

End ModelMessageMore.

(** ** More on citation formatting *)

Module MessageBlockMore.

Import MessageBlock MessageBlockFacts CitationVocabulary.

Lemma mapOrEmpty_types {A} (f : A → nat → Citation) (t : CitationType) xs :
  (∀ x i, type (f x i) = t) → Forall (λ c, type c = t) (mapOrEmpty f xs).
Proof.
  intros Hf. destruct xs as [l|]; [|constructor]. unfold mapOrEmpty.
  apply Forall_forall. intros c [i Hi]%list_elem_of_lookup.
  rewrite list_lookup_imap in Hi. destruct (l !! i); simplify_eq/=. apply Hf.
Qed.

(** The collected citations: web results first, knowledge references after. *)
Lemma formattedCitations_split urlHostname block :
  ∃ web kb, formattedCitations urlHostname block = web ++ kb
            ∧ Forall (λ c, type c = websearch) web
            ∧ Forall (λ c, type c = knowledge_type) kb.
Proof.
  unfold formattedCitations.
  set (web := match response block with
              | Some (GEMINI results) => _ | Some (OPENAI results) => _
              | Some (OPENROUTER results) => _ | Some (PERPLEXITY results) => _
              | Some (ZHIPU results) => _ | Some (HUNYUAN results) => _
              | Some (WEBSEARCH results) => _ | None => _ end).
  assert (Hweb : Forall (λ c, type c = websearch) web).
  { subst web. destruct (response block) as [[]|]; try constructor;
      apply mapOrEmpty_types; intros x i; try done;
      unfold fromUrl; by destruct (urlHostname x). }
  destruct (knowledge block) as [[|k ks]|].
  - exists web, []. by rewrite app_nil_r.
  - exists web, (mapOrEmpty fromKnowledge (Some (k :: ks))).
    split; [done|]. split; [done|]. by apply mapOrEmpty_types.
  - exists web, []. by rewrite app_nil_r.
Qed.

Lemma sameSource_type out kept :
  Forall2 sameSource out kept → type <$> out = type <$> kept.
Proof.
  induction 1 as [|c c' out kept Hc _ IH]; [done|]. rewrite !fmap_cons, IH. f_equal.
  unfold sameSource, withNumber in Hc. by injection Hc.
Qed.

Lemma all_of_type (t : CitationType) l :
  Forall (λ c, type c = t) l → type <$> l = replicate (length l) t.
Proof.
  induction 1 as [|c l Hc _ IH]; [done|].
  rewrite fmap_cons, Hc, IH. done.
Qed.

(** X4. In the output of [formatCitationsFromBlock] the web citations come
    first and the knowledge-base citations after them: the types read
    websearch, ..., websearch, knowledge, ..., knowledge. *)
Theorem web_citations_before_knowledge
    (urlHostname : string → option string) (block : option CitationMessageBlock) :
  ∃ n k, type <$> formatCitationsFromBlock urlHostname block
         = replicate n websearch ++ replicate k knowledge_type.
Proof.
  destruct block as [block|]; [|by exists 0, 0]. cbn [formatCitationsFromBlock].
  rewrite (sameSource_type _ _ (renumber_sameSource _)).
  destruct (formattedCitations_split urlHostname block) as (web & kb & -> & Hweb & Hkb).
  pose proof (filterSeen_sublist (web ++ kb) ∅) as Hsub.
  apply sublist_app_r in Hsub as (k1 & k2 & -> & H1 & H2).
  exists (length k1), (length k2). rewrite fmap_app. f_equal; apply all_of_type.
  - apply Forall_forall. intros c Hc.
    by apply (proj1 (Forall_forall _ _) Hweb), (elem_of_sublist k1).
  - apply Forall_forall. intros c Hc.
    by apply (proj1 (Forall_forall _ _) Hkb), (elem_of_sublist k2).
Qed.

Lemma first_occurrence_exists cs : ∀ c u,
  c ∈ cs → url c = Some u → ∃ i c', firstWithUrl cs u i c'.
Proof.
  induction cs as [|c0 rest IH]; intros c u Hc Hu; [by apply elem_of_nil in Hc|].
  destruct (decide (url c0 = Some u)) as [E|Hne].
  - exists 0, c0. by apply firstWithUrl_head.
  - apply elem_of_cons in Hc as [->|Hc]; [done|].
    destruct (IH c u Hc Hu) as (i & c' & Hfirst).
    exists (S i), c'. by apply firstWithUrl_tail.
Qed.

Lemma elem_of_nonEmptyUrls cs u :
  u ∈ nonEmptyUrls cs ↔ u ≠ "" ∧ ∃ c, c ∈ cs ∧ url c = Some u.
Proof.
  unfold nonEmptyUrls. rewrite list_elem_of_omap. split.
  - intros (c & Hc & Hu). destruct (url c) as [u'|] eqn:E; [|done].
    destruct (Js.truthy (Some u')) eqn:Ht; [|done]. simplify_eq.
    split; [by apply truthy_Some | by exists c].
  - intros (Hne & c & Hc & Hu). exists c. split; [done|]. rewrite Hu.
    apply truthy_Some in Hne. by rewrite Hne.
Qed.

Lemma nonEmptyUrls_hasUrl cs :
  Forall hasUrl cs → Some <$> nonEmptyUrls cs = url <$> cs.
Proof.
  induction 1 as [|c cs (u & Hu & Hne) _ IH]; [done|].
  unfold nonEmptyUrls in *. cbn -[Js.truthy]. rewrite Hu.
  apply truthy_Some in Hne. rewrite Hne. cbn -[Js.truthy]. by rewrite IH.
Qed.

(** X5. [formatCitationsFromBlock] returns as many citations as the
    collected citations have different non-empty urls. *)
Theorem one_citation_per_distinct_url
    (urlHostname : string → option string) (block : CitationMessageBlock) :
  length (formatCitationsFromBlock urlHostname (Some block))
  = size (list_to_set (nonEmptyUrls (formattedCitations urlHostname block)) : gset string).
Proof.
  cbn [formatCitationsFromBlock]. rewrite renumber_length.
  set (input := formattedCitations urlHostname block).
  assert (Hall : Forall hasUrl (filterSeen ∅ input)).
  { apply Forall_forall. intros c. apply filterSeen_hasUrl. }
  pose proof (nonEmptyUrls_hasUrl _ Hall) as Hurls.
  assert (Hlen : length (filterSeen ∅ input) = length (nonEmptyUrls (filterSeen ∅ input))).
  { by rewrite <- (length_fmap url), <- Hurls, length_fmap. }
  assert (Hnd : NoDup (nonEmptyUrls (filterSeen ∅ input))).
  { apply (NoDup_fmap_1 Some). rewrite Hurls. apply filterSeen_NoDup. }
  rewrite Hlen, <- (size_list_to_set (C:=gset string) _ Hnd).
  f_equal. apply set_eq. intros u. rewrite !elem_of_list_to_set, !elem_of_nonEmptyUrls.
  split; intros (Hne & c & Hc & Hu); (split; [done|]).
  - exists c. split; [|done]. by apply (elem_of_sublist _ _ _ Hc), filterSeen_sublist.
  - destruct (first_occurrence_exists _ _ _ Hc Hu) as (i & c' & Hfirst).
    exists c'. split; [|by destruct Hfirst as (_ & ? & _)].
    apply filterSeen_spec. exists i, u.
    split; [done|]. split; [apply not_elem_of_empty | done].
Qed.

End MessageBlockMore.

(** ** More on the completion loop *)

Module CompletionsMore.

Import MessageBlock OpenAIProviderMethods OpenAIProviderFacts.
Open Scope Z_scope.

#[local] Arguments String.append !_ _ /.

Lemma textDeltaText_app l1 l2 :
  textDeltaText (l1 ++ l2) = String.append (textDeltaText l1) (textDeltaText l2).
Proof.
  induction l1 as [|c l1 IH]; [done|].
  destruct c; simpl; try done. by rewrite IH, append_assoc.
Qed.

Lemma textCompletesAgree_app l1 : ∀ answer l2,
  textCompletesAgree answer (l1 ++ l2)
  ↔ textCompletesAgree answer l1
    ∧ textCompletesAgree (String.append answer (textDeltaText l1)) l2.
Proof.
  induction l1 as [|c l1 IH]; intros answer l2.
  - simpl. rewrite append_nil_r. tauto.
  - destruct c; simpl; rewrite ?IH, ?append_assoc; tauto.
Qed.

Lemma notText_trace l :
  Forall notText l → textDeltaText l = "" ∧ ∀ answer, textCompletesAgree answer l.
Proof.
  induction 1 as [|c l Hc _ [IH1 IH2]]; [done|].
  destruct c; simpl in *; done.
Qed.

(** Each [TEXT_COMPLETE] of a trace that agrees carries the texts of the
    [TEXT_DELTA] chunks before it. *)
Lemma textCompletesAgree_split trace pre text post :
  textCompletesAgree "" trace →
  trace = pre ++ TEXT_COMPLETE text :: post →
  text = textDeltaText pre.
Proof.
  intros Hagree ->. apply textCompletesAgree_app in Hagree as [_ Hagree].
  simpl in Hagree. by destruct Hagree.
Qed.

Section Rounds.

Variable request : Request.
Variable sdk : Collaborators.

Lemma webSearchChunks_notText c : Forall notText (webSearchChunks request sdk c).
Proof.
  unfold webSearchChunks.
  repeat (apply Forall_app; split); repeat case_match; by repeat constructor.
Qed.

Lemma accumulateThinking_notText a s f s' f' :
  accumulateThinking a (s, f) = (s', f') →
  content f' = content f ∧ ∃ new, sent s' = sent s ++ new ∧ Forall notText new.
Proof.
  unfold accumulateThinking. intros H.
  repeat case_match; simplify_eq; (split; [done|]).
  - eexists [_]. split; [done|]. by repeat constructor.
  - exists []. by rewrite app_nil_r.
  - exists []. by rewrite app_nil_r.
Qed.

(** One turn of the loop, read for the answer text. *)
Lemma processChunk_text a s f s' f' :
  processChunk request sdk a (s, f) = (s', f') →
  ∃ new, sent s' = sent s ++ new
         ∧ content f' = String.append (content f) (textDeltaText new)
         ∧ textCompletesAgree (content f) new.
Proof.
  unfold processChunk. intros H.
  destruct (latchFirstThinkingToken request a (s, f)) as [s1 f1] eqn:E1.
  destruct (accumulateThinking a (s1, f1)) as [s2 f2] eqn:E2.
  destruct (completeThinking a (s2, f2)) as [s3 f3] eqn:E3.
  destruct (accumulateText request sdk a (s3, f3)) as [s4 f4] eqn:E4.
  apply latchFirstThinkingToken_spec in E1 as (Hs1 & _ & Hb1 & _).
  apply accumulateThinking_notText in E2 as (Hb2 & new2 & Hs2 & Hq2).
  apply completeThinking_spec in E3 as (_ & Hb3 & _ & Hcase3).
  apply accumulateText_spec in E4 as (_ & _ & _ & _ & Hcase4).
  apply finishChunk_spec in H as (_ & _ & Hb5 & _ & Hcase5).
  assert (H3 : ∃ new3, sent s3 = sent s ++ new3 ∧ Forall notText new3).
  { destruct Hcase3 as [(-> & _)|(_ & _ & (ms & ->) & _)]; rewrite Hs2, Hs1.
    - by exists new2.
    - eexists (new2 ++ [_]). rewrite <- app_assoc. split; [done|].
      apply Forall_app. split; [done|]. by repeat constructor. }
  destruct H3 as (new3 & Hs3 & Hq3).
  destruct (notText_trace _ Hq3) as [Ht3 Ha3].
  assert (Hc3 : content f3 = content f) by congruence.
  pose proof (notText_trace _ (webSearchChunks_notText (chunk a))) as [Htw Haw].
  destruct Hcase4 as [(Hs4 & Hb4 & _)|(text & Hs4 & Hb4 & _)];
    destruct Hcase5 as [(_ & Hs5 & _)|(_ & Hs5 & _)];
    rewrite Hs5, Hs4, Hs3, Hb5, Hb4, Hc3.
  - exists new3. rewrite Ht3, append_nil_r. done.
  - eexists (new3 ++ _ :: _). rewrite <- app_assoc. split; [done|].
    rewrite textDeltaText_app, Ht3. cbn [textDeltaText String.append].
    rewrite Htw, append_nil_r. split; [done|].
    apply textCompletesAgree_app. rewrite Ht3, append_nil_r.
    split; [done|]. simpl. done.
  - exists (new3 ++ [TEXT_DELTA text]). rewrite <- app_assoc. split; [done|].
    rewrite textDeltaText_app, Ht3. cbn [textDeltaText String.append].
    rewrite append_nil_r. split; [done|].
    apply textCompletesAgree_app. by rewrite Ht3, append_nil_r.
  - eexists (new3 ++ [TEXT_DELTA text] ++ _ :: _).
    rewrite <- !app_assoc. split; [done|].
    rewrite textDeltaText_app, Ht3. cbn [textDeltaText String.append app].
    rewrite Htw, append_nil_r. split; [done|].
    apply textCompletesAgree_app. rewrite Ht3, append_nil_r.
    split; [done|]. simpl. done.
Qed.

Lemma consume_text arrivals : ∀ s f s' f',
  consume request sdk arrivals (s, f) = (s', f') →
  ∃ new, sent s' = sent s ++ new
         ∧ content f' = String.append (content f) (textDeltaText new)
         ∧ textCompletesAgree (content f) new.
Proof.
  induction arrivals as [|a rest IH]; intros s f s' f' Hrun.
  - simpl in Hrun. simplify_eq. exists []. by rewrite app_nil_r, append_nil_r.
  - rewrite consume_cons in Hrun. destruct (paused a).
    { simplify_eq. exists []. by rewrite app_nil_r, append_nil_r. }
    destruct (processChunk request sdk a (s, f)) as [s1 f1] eqn:Hstep.
    apply processChunk_text in Hstep as (new1 & Hs1 & Hc1 & Ha1).
    apply IH in Hrun as (new2 & Hs2 & Hc2 & Ha2).
    exists (new1 ++ new2). rewrite Hs2, Hs1, <- app_assoc. split; [done|].
    rewrite Hc2, Hc1, textDeltaText_app, append_assoc. split; [done|].
    apply textCompletesAgree_app. by rewrite <- Hc1.
Qed.

(** X6. In every round the answer buffer is the concatenation of the texts
    of the text-delta chunks the round has sent, and every text-complete of
    the round carries the texts of the text-delta chunks sent before it; the
    buffer at the end of the loop is what [processToolUses] is given to scan. *)
Theorem text_complete_carries_the_deltas (arrivals : list Arrival) (s s' : Closure)
    (f' : Frame) :
  consume request sdk arrivals (s, newFrame) = (s', f') →
  ∃ new, sent s' = sent s ++ new
         ∧ content f' = textDeltaText new
         ∧ ∀ pre text post,
             new = pre ++ TEXT_COMPLETE text :: post → text = textDeltaText pre.
Proof.
  intros Hrun. apply consume_text in Hrun as (new & Hs & Hc & Ha).
  exists new. split; [done|]. split; [done|].
  intros pre text post. by apply textCompletesAgree_split.
Qed.

(** The loop leaves the transcript and the tool responses alone. *)
Lemma foldl_onChunk_transcript l : ∀ s,
  reqMessages (foldl (λ s c, onChunk c s) s l) = reqMessages s
  ∧ toolResponses (foldl (λ s c, onChunk c s) s l) = toolResponses s.
Proof.
  induction l as [|c l IH]; intros s; [done|]. simpl.
  by destruct (IH (onChunk c s)) as [-> ->].
Qed.

Lemma processChunk_transcript a s f s' f' :
  processChunk request sdk a (s, f) = (s', f') →
  reqMessages s' = reqMessages s ∧ toolResponses s' = toolResponses s.
Proof.
  unfold processChunk. intros H.
  destruct (latchFirstThinkingToken request a (s, f)) as [s1 f1] eqn:E1.
  destruct (accumulateThinking a (s1, f1)) as [s2 f2] eqn:E2.
  destruct (completeThinking a (s2, f2)) as [s3 f3] eqn:E3.
  destruct (accumulateText request sdk a (s3, f3)) as [s4 f4] eqn:E4.
  assert (reqMessages s1 = reqMessages s ∧ toolResponses s1 = toolResponses s) as [R1 T1].
  { unfold latchFirstThinkingToken in E1. by case_match; simplify_eq. }
  assert (reqMessages s2 = reqMessages s1 ∧ toolResponses s2 = toolResponses s1) as [R2 T2].
  { unfold accumulateThinking in E2. by repeat case_match; simplify_eq. }
  assert (reqMessages s3 = reqMessages s2 ∧ toolResponses s3 = toolResponses s2) as [R3 T3].
  { unfold completeThinking in E3.
    destruct (isReasoningJustDone (delta (chunk a)) s2) as [justDone s2'] eqn:Hdone.
    assert (reqMessages s2' = reqMessages s2 ∧ toolResponses s2' = toolResponses s2) as [? ?].
    { unfold isReasoningJustDone in Hdone. by repeat case_match; simplify_eq. }
    by case_match; simplify_eq. }
  assert (reqMessages s4 = reqMessages s3 ∧ toolResponses s4 = toolResponses s3) as [R4 T4].
  { unfold accumulateText in E4. by repeat case_match; simplify_eq. }
  assert (reqMessages s' = reqMessages s4 ∧ toolResponses s' = toolResponses s4) as [R5 T5].
  { unfold finishChunk in H. case_match; simplify_eq; [|done].
    apply (foldl_onChunk_transcript _ (onChunk _ s4)). }
  split; congruence.
Qed.

Lemma consume_transcript arrivals : ∀ s f s' f',
  consume request sdk arrivals (s, f) = (s', f') →
  reqMessages s' = reqMessages s ∧ toolResponses s' = toolResponses s.
Proof.
  induction arrivals as [|a rest IH]; intros s f s' f' Hrun.
  - simpl in Hrun. by simplify_eq.
  - rewrite consume_cons in Hrun. destruct (paused a); [by simplify_eq|].
    destruct (processChunk request sdk a (s, f)) as [s1 f1] eqn:Hstep.
    apply processChunk_transcript in Hstep as [R1 T1].
    apply IH in Hrun as [R2 T2]. split; congruence.
Qed.

Lemma foldl_fromTools_transcript (l : list (list MCPToolResponse)) : ∀ s,
  reqMessages (foldl (λ s r, onChunk (FROM_TOOLS r) s) s l) = reqMessages s.
Proof. induction l as [|r l IH]; intros s; [done|]. simpl. by rewrite IH. Qed.

Lemma callTools_transcript text idx s calls s' :
  callTools sdk text idx s = (calls, s') → reqMessages s' = reqMessages s.
Proof.
  unfold callTools. intros H. simplify_eq. by rewrite foldl_fromTools_transcript.
Qed.

Lemma processReqMessages_sublist m l :
  sublist l (ModelMessageService.processReqMessages m l).
Proof.
  destruct (ModelMessageMore.processReqMessages_cases m l) as [->| ->]; [done|].
  destruct l as [|x l]; [done|]. simpl.
  apply sublist_skip, ModelMessageFacts.sublist_separatedAfter.
Qed.

(** What a call of [processStream] does to the chunks sent and to the
    transcript, whatever its outcome. *)
Lemma processStream_grows fuel : ∀ s stream idx,
  sent s `prefix_of` sent (outcomeClosure (processStream request sdk fuel s stream idx))
  ∧ sublist (reqMessages s)
      (reqMessages (outcomeClosure (processStream request sdk fuel s stream idx)))
  ∧ (id (model request) ≠ "deepseek-reasoner" →
     reqMessages s
       `prefix_of` reqMessages (outcomeClosure (processStream request sdk fuel s stream idx))).
Proof.
  induction fuel as [|fuel IH]; intros s stream idx; [by simpl|].
  destruct (streamOutput request) eqn:Hstream; cycle 1.
  { simpl. rewrite Hstream. simpl.
    destruct stream as [arrivals|t completion]; [done|].
    unfold processWhole. destruct (choices completion) as [|first rest]; [done|].
    destruct (Js.truthy (message first ≫= message_content)); simpl.
    - split; [|done]. eexists [_; _]. by rewrite <- app_assoc.
    - split; [|done]. by eexists [_]. }
  destruct stream as [arrivals|t completion]; [|simpl; by rewrite Hstream].
  rewrite processStream_streamed by done.
  destruct (consume request sdk arrivals (s, newFrame)) as [s1 f1] eqn:Hcons.
  pose proof (consume_transcript _ _ _ _ _ Hcons) as [R1 _].
  apply consume_spec in Hcons as (_ & _ & new1 & Hs1 & _).
  unfold processToolUses.
  destruct (callTools sdk (content f1) idx s1) as [calls s2] eqn:Hcalls.
  pose proof (callTools_transcript _ _ _ _ _ Hcalls) as R2.
  apply callTools_spec in Hcalls as (_ & _ & new2 & Hs2 & _).
  destruct (0 <? length (toolResults calls))%nat.
  - specialize (IH (extendTranscript request (content f1) calls s2)
                  (create request sdk
                     (reqMessages (extendTranscript request (content f1) calls s2)))
                  (idx + 1)%nat).
    destruct IH as ((new3 & Hs3) & Hsub & Hpre).
    cbn [sent reqMessages extendTranscript setMessages] in Hs3, Hsub, Hpre.
    assert (Hsub' : sublist (reqMessages s)
      (ModelMessageService.processReqMessages (model request)
         (reqMessages s2
          ++ [ {| role := assistant; ModelMessageService.content := Text (content f1) |} ]
          ++ toolResults calls))).
    { etrans; [|apply processReqMessages_sublist].
      rewrite R2, R1. by apply sublist_inserts_r. }
    assert (Hpre' : id (model request) ≠ "deepseek-reasoner" →
      reqMessages s `prefix_of`
      ModelMessageService.processReqMessages (model request)
         (reqMessages s2
          ++ [ {| role := assistant; ModelMessageService.content := Text (content f1) |} ]
          ++ toolResults calls)).
    { intros Hne. unfold ModelMessageService.processReqMessages,
        ModelMessageService.needStrictlyInterleaveUserAndAssistantMessages.
      apply String.eqb_neq in Hne. rewrite Hne. simpl.
      rewrite R2, R1. by eexists. }
    destruct (processStream request sdk fuel _ _ _) as [s3|s3 e|s3 k];
      cbn [outcomeClosure] in *.
    + unfold finishRound. cbn [sent reqMessages onChunk setFirstToken setFirstContent].
      split; [|split].
      * rewrite Hs3, Hs2, Hs1. eexists (new1 ++ new2 ++ new3 ++ [_]).
        by rewrite <- !app_assoc.
      * by etrans.
      * intros Hne. etrans; [by apply Hpre' | by apply Hpre].
    + split; [|split].
      * rewrite Hs3, Hs2, Hs1. exists (new1 ++ new2 ++ new3). by rewrite <- !app_assoc.
      * by etrans.
      * intros Hne. etrans; [by apply Hpre' | by apply Hpre].
    + split; [|split].
      * rewrite Hs3, Hs2, Hs1. exists (new1 ++ new2 ++ new3). by rewrite <- !app_assoc.
      * by etrans.
      * intros Hne. etrans; [by apply Hpre' | by apply Hpre].
  - cbn [outcomeClosure]. unfold finishRound.
    cbn [sent reqMessages onChunk setFirstToken setFirstContent].
    rewrite Hs2, Hs1, R2, R1. split; [|done].
    eexists (new1 ++ new2 ++ [_]). by rewrite <- !app_assoc.
Qed.

(** X9. The transcript only grows: whatever the outcome of a call of
    [processStream], the request messages it started with are still there,
    in their order, and for every model other than 'deepseek-reasoner' they
    are a prefix of the final transcript (pure append). *)
Theorem transcript_is_append_only (fuel : nat) (s : Closure) (stream : Upstream) (idx : nat) :
  sublist (reqMessages s)
    (reqMessages (outcomeClosure (processStream request sdk fuel s stream idx)))
  ∧ (id (model request) ≠ "deepseek-reasoner" →
     reqMessages s
       `prefix_of` reqMessages (outcomeClosure (processStream request sdk fuel s stream idx))).
Proof. by destruct (processStream_grows fuel s stream idx) as (_ & ? & ?). Qed.

(** The four stages before the finish test send streaming chunks only and
    leave [lastUsage] and the completion time alone. *)
Lemma latchFirstThinkingToken_unfinished a s f s' f' :
  latchFirstThinkingToken request a (s, f) = (s', f') →
  final_time_completion_millsec_delta f' = final_time_completion_millsec_delta f
  ∧ lastUsage f' = lastUsage f
  ∧ ∃ new, sent s' = sent s ++ new ∧ Forall streamingOnly new.
Proof.
  unfold latchFirstThinkingToken. intros H.
  case_match; simplify_eq; (repeat split; [done..|]); exists []; by rewrite app_nil_r.
Qed.

Lemma accumulateThinking_unfinished a s f s' f' :
  accumulateThinking a (s, f) = (s', f') →
  final_time_completion_millsec_delta f' = final_time_completion_millsec_delta f
  ∧ lastUsage f' = lastUsage f
  ∧ ∃ new, sent s' = sent s ++ new ∧ Forall streamingOnly new.
Proof.
  unfold accumulateThinking. intros H.
  repeat case_match; simplify_eq; (repeat split; [done..|]);
    first [by exists []; rewrite app_nil_r | by eexists [_]; repeat constructor].
Qed.

Lemma completeThinking_unfinished a s f s' f' :
  completeThinking a (s, f) = (s', f') →
  final_time_completion_millsec_delta f' = final_time_completion_millsec_delta f
  ∧ lastUsage f' = lastUsage f
  ∧ ∃ new, sent s' = sent s ++ new ∧ Forall streamingOnly new.
Proof.
  unfold completeThinking. intros H.
  destruct (isReasoningJustDone (delta (chunk a)) s) as [justDone s1] eqn:Hdone.
  apply isReasoningJustDone_frame in Hdone as (Hsent & _).
  case_match; simplify_eq; cbn; rewrite Hsent; (repeat split; [done..|]);
    first [by exists []; rewrite app_nil_r | by eexists [_]; repeat constructor].
Qed.

Lemma accumulateText_unfinished a s f s' f' :
  accumulateText request sdk a (s, f) = (s', f') →
  final_time_completion_millsec_delta f' = final_time_completion_millsec_delta f
  ∧ lastUsage f' = lastUsage f
  ∧ ∃ new, sent s' = sent s ++ new ∧ Forall streamingOnly new.
Proof.
  unfold accumulateText. intros H.
  repeat case_match; simplify_eq; cbn; (repeat split; [done..|]);
    first [by exists []; rewrite app_nil_r | by eexists [_]; repeat constructor].
Qed.

Lemma processChunk_unfinished a s f s' f' :
  Js.truthy (finish_reason (chunk a)) = false →
  processChunk request sdk a (s, f) = (s', f') →
  final_time_completion_millsec_delta f' = final_time_completion_millsec_delta f
  ∧ lastUsage f' = lastUsage f
  ∧ ∃ new, sent s' = sent s ++ new ∧ Forall streamingOnly new.
Proof.
  intros Hfinish. unfold processChunk. intros H.
  destruct (latchFirstThinkingToken request a (s, f)) as [s1 f1] eqn:E1.
  destruct (accumulateThinking a (s1, f1)) as [s2 f2] eqn:E2.
  destruct (completeThinking a (s2, f2)) as [s3 f3] eqn:E3.
  destruct (accumulateText request sdk a (s3, f3)) as [s4 f4] eqn:E4.
  unfold finishChunk in H. rewrite Hfinish in H. injection H as <- <-.
  apply latchFirstThinkingToken_unfinished in E1 as (Ht1 & Hu1 & n1 & Hs1 & H1).
  apply accumulateThinking_unfinished in E2 as (Ht2 & Hu2 & n2 & Hs2 & H2).
  apply completeThinking_unfinished in E3 as (Ht3 & Hu3 & n3 & Hs3 & H3).
  apply accumulateText_unfinished in E4 as (Ht4 & Hu4 & n4 & Hs4 & H4).
  split; [congruence|]. split; [congruence|].
  exists (n1 ++ n2 ++ n3 ++ n4). rewrite Hs4, Hs3, Hs2, Hs1, <- !app_assoc.
  split; [done|]. by repeat (apply Forall_app; split).
Qed.

Lemma consume_unfinished arrivals : ∀ s f s' f',
  Forall (λ a, Js.truthy (finish_reason (chunk a)) = false) arrivals →
  consume request sdk arrivals (s, f) = (s', f') →
  final_time_completion_millsec_delta f' = final_time_completion_millsec_delta f
  ∧ lastUsage f' = lastUsage f
  ∧ ∃ new, sent s' = sent s ++ new ∧ Forall streamingOnly new.
Proof.
  induction arrivals as [|a rest IH]; intros s f s' f' Hall Hrun.
  { simpl in Hrun. simplify_eq. repeat split; [done..|]. exists []. by rewrite app_nil_r. }
  apply Forall_cons in Hall as [Ha Hall]. rewrite consume_cons in Hrun.
  destruct (paused a).
  { simplify_eq. repeat split; [done..|]. exists []. by rewrite app_nil_r. }
  destruct (processChunk request sdk a (s, f)) as [s1 f1] eqn:Hstep.
  apply (processChunk_unfinished _ _ _ _ _ Ha) in Hstep as (Ht1 & Hu1 & n1 & Hs1 & H1).
  apply IH in Hrun as (Ht2 & Hu2 & n2 & Hs2 & H2); [|done].
  split; [congruence|]. split; [congruence|]. exists (n1 ++ n2).
  rewrite Hs2, Hs1, <- app_assoc. split; [done|]. by apply Forall_app.
Qed.

(** X10. The chunk loop of a streamed round in which no chunk has a finish
    reason (a stream that ends early) sends THINKING_DELTA,
    THINKING_COMPLETE and TEXT_DELTA chunks only, so no TEXT_COMPLETE and no
    web-search chunk; and if the round finishes, its BLOCK_COMPLETE, the
    last chunk sent, has no usage, no completion tokens and a completion
    time of 0. *)
Theorem no_text_complete_without_finish_reason (fuel : nat) (s : Closure)
    (arrivals : list Arrival) (idx : nat) :
  streamOutput request = true →
  Forall (λ a, Js.truthy (finish_reason (chunk a)) = false) arrivals →
  (∃ new, sent (consume request sdk arrivals (s, newFrame)).1 = sent s ++ new
          ∧ Forall streamingOnly new)
  ∧ ∀ s', processStream request sdk (S fuel) s (Streamed arrivals) idx = Finished s' →
          ∃ before metrics,
            sent s' = before ++ [BLOCK_COMPLETE None metrics]
            ∧ metrics_completion_tokens metrics = None
            ∧ metrics_time_completion_millsec metrics = 0.
Proof.
  intros Hstream Hall.
  destruct (consume request sdk arrivals (s, newFrame)) as [s1 f1] eqn:Hrun.
  pose proof (consume_unfinished _ _ _ _ _ Hall Hrun) as (Htime & Husage & new & Hs1 & Hnew).
  split; [by exists new|].
  intros s' Hf. rewrite processStream_streamed, Hrun in Hf by done.
  destruct (processToolUses _ _ _ _ _ _) as [s2| |]; [|done..].
  simplify_eq. unfold finishRound, blockComplete. cbn [sent onChunk setFirstToken setFirstContent].
  rewrite Husage, Htime. by do 2 eexists.
Qed.

Lemma consume_paused pre a rest sf :
  paused a = true →
  consume request sdk (pre ++ a :: rest) sf = consume request sdk pre sf.
Proof.
  intros Hpaused. induction pre as [|b pre IH] in sf |- *.
  - simpl. by rewrite Hpaused.
  - simpl. destruct (paused b); [done | apply IH].
Qed.

(** X7. A pause ends the chunk loop and nothing else: chunks from the
    paused one on are not looked at, and the round goes on as if the stream
    had ended there (the text received so far is still scanned for tool
    calls, and BLOCK_COMPLETE is still sent). *)
Theorem pause_ends_the_stream_early (fuel : nat) (s : Closure)
    (pre : list Arrival) (a : Arrival) (rest : list Arrival) (idx : nat) :
  paused a = true →
  processStream request sdk fuel s (Streamed (pre ++ a :: rest)) idx
  = processStream request sdk fuel s (Streamed pre) idx.
Proof.
  intros Hpaused. destruct fuel as [|fuel]; [done|]. simpl.
  by rewrite consume_paused.
Qed.

(** X8. Without streaming there is no tool loop: given the completion,
    [processStream] ends in this round, whatever the answer contains and
    whatever the tool executor would return. If the completion has a first
    choice, it sends a TEXT_COMPLETE with that choice's answer if the answer
    is not empty, then one BLOCK_COMPLETE with the usage of the completion
    and a first-token time of 0, and leaves the transcript and the tool
    responses as they were; if the completion has no choice, it throws a
    TypeError and sends nothing. *)
Theorem no_tool_loop_without_streaming (fuel : nat) (s : Closure) (t : Z)
    (completion : ChatCompletion) (idx : nat) :
  streamOutput request = false →
  (choices completion = [] →
   ∃ text, processStream request sdk (S fuel) s (Whole t completion) idx
           = Threw s (Js.TypeError text))
  ∧ (∀ first others,
       choices completion = first :: others →
       ∃ s' metrics,
         processStream request sdk (S fuel) s (Whole t completion) idx = Finished s'
         ∧ sent s'
           = sent s
             ++ (if Js.truthy (message first ≫= message_content)
                 then [TEXT_COMPLETE (default "" (message first ≫= message_content))]
                 else [])
             ++ [BLOCK_COMPLETE (completion_usage completion) metrics]
         ∧ metrics_time_first_token_millsec metrics = 0
         ∧ metrics_time_completion_millsec metrics = t - start_time_millsec request
         ∧ reqMessages s' = reqMessages s
         ∧ toolResponses s' = toolResponses s).
Proof.
  intros Hstream. cbn [processStream]. rewrite Hstream. cbn [negb].
  unfold processWhole. split.
  - intros ->. by eexists.
  - intros first others ->.
    destruct (Js.truthy (message first ≫= message_content)); do 2 eexists;
      (split; [reflexivity|]); cbn [sent onChunk]; by rewrite <- ?app_assoc.
Qed.

Lemma firstTokenMetrics_app l1 l2 :
  firstTokenMetrics (l1 ++ l2) = firstTokenMetrics l1 ++ firstTokenMetrics l2.
Proof.
  induction l1 as [|c l1 IH]; [done|]. destruct c; simpl; by rewrite ?IH.
Qed.

Lemma firstTokenMetrics_none l :
  filter isBlockComplete l = [] → firstTokenMetrics l = [].
Proof.
  induction l as [|c l IH]; [done|].
  destruct c; simpl; try (rewrite filter_cons_False by (by intros []); exact IH).
  by rewrite filter_cons_True.
Qed.

(** The delta of the first token is set in the chunk loop only. *)
Lemma foldl_fromTools_first_token (l : list (list MCPToolResponse)) : ∀ s,
  time_first_token_millsec_delta (foldl (λ s r, onChunk (FROM_TOOLS r) s) s l)
  = time_first_token_millsec_delta s.
Proof. induction l as [|r l IH]; intros s; [done|]. simpl. by rewrite IH. Qed.

Lemma callTools_first_token text idx s calls s' :
  callTools sdk text idx s = (calls, s') →
  time_first_token_millsec_delta s' = time_first_token_millsec_delta s.
Proof.
  unfold callTools. intros H. simplify_eq. by rewrite foldl_fromTools_first_token.
Qed.

Lemma finished_first_token_metrics fuel : ∀ s arrivals idx s',
  streamOutput request = true →
  processStream request sdk fuel s (Streamed arrivals) idx = Finished s' →
  ∃ new, sent s' = sent s ++ new
         ∧ Forall (λ t, t = time_first_token_millsec_delta s') (firstTokenMetrics new).
Proof.
  induction fuel as [|fuel IH]; intros s arrivals idx s' Hstream Hf; [done|].
  rewrite processStream_streamed in Hf by done.
  destruct (consume request sdk arrivals (s, newFrame)) as [s1 f1] eqn:Hcons.
  apply consume_spec in Hcons as (_ & _ & new1 & Hs1 & Hn1).
  apply firstTokenMetrics_none in Hn1.
  unfold processToolUses in Hf.
  destruct (callTools sdk (content f1) idx s1) as [calls s2] eqn:Hcalls.
  apply callTools_spec in Hcalls as (_ & _ & new2 & Hs2 & Hn2).
  apply firstTokenMetrics_none in Hn2.
  destruct (0 <? length (toolResults calls))%nat.
  - rewrite create_streamed in Hf by done.
    destruct (processStream request sdk fuel _ _ _) as [s3|? ?|? ?] eqn:Hinner; [|done..].
    simplify_eq. apply IH in Hinner as (new3 & Hs3 & Hm3); [|done].
    cbn [sent extendTranscript setMessages] in Hs3.
    eexists (new1 ++ new2 ++ new3 ++ [_]).
    unfold finishRound. cbn [sent onChunk setFirstToken setFirstContent].
    rewrite Hs3, Hs2, Hs1, <- !app_assoc. split; [done|].
    rewrite !firstTokenMetrics_app, Hn1, Hn2. simpl.
    apply Forall_app. split; [done|]. by repeat constructor.
  - simplify_eq. eexists (new1 ++ new2 ++ [_]).
    unfold finishRound. cbn [sent onChunk setFirstToken setFirstContent].
    rewrite Hs2, Hs1, <- !app_assoc. split; [done|].
    rewrite !firstTokenMetrics_app, Hn1, Hn2. simpl. by repeat constructor.
Qed.

(** X11. All BLOCK_COMPLETE chunks of a finished request report the same
    time to the first token, in streaming mode the one latched by the first
    token of the whole request: later rounds do not report a time of their
    own. *)
Theorem block_completes_share_first_token_time (fuel : nat) (s' : Closure) :
  completions request sdk fuel = Finished s' →
  Forall (λ t, t = time_first_token_millsec_delta s') (firstTokenMetrics (sent s')).
Proof.
  unfold completions. intros Hf.
  destruct (streamOutput request) eqn:Hstream.
  - rewrite create_streamed in Hf by done.
    apply finished_first_token_metrics in Hf as (new & -> & Hm); [|done].
    by rewrite firstTokenMetrics_app.
  - destruct fuel as [|fuel]; [done|]. simpl in Hf. rewrite Hstream in Hf. simpl in Hf.
    unfold create in Hf. rewrite Hstream in Hf.
    destruct (createCompletion sdk _) as [t completion].
    unfold processWhole in Hf. destruct (choices completion) as [|first rest]; [done|].
    destruct (Js.truthy (message first ≫= message_content)); simplify_eq; simpl;
      by repeat constructor.
Qed.

End Rounds.

Lemma text_complete_carries_the_deltas_witness :
  ∃ new,
    sent (consume sampleRequest twoRoundSdk (twoRounds [toolMessage "hi"])
            (started sampleRequest, newFrame)).1
    = sent (started sampleRequest) ++ new
    ∧ content (consume sampleRequest twoRoundSdk (twoRounds [toolMessage "hi"])
                 (started sampleRequest, newFrame)).2
      = textDeltaText new.
Proof.
  destruct (text_complete_carries_the_deltas sampleRequest twoRoundSdk
              (twoRounds [toolMessage "hi"]) (started sampleRequest) _ _
              (surjective_pairing _)) as (new & Hs & Hc & _).
  by exists new.
Defined.

Lemma pause_ends_the_stream_early_witness :
  processStream sampleRequest quietSdk 1 (started sampleRequest)
    (Streamed ([arrive 1010 (onlyContent "Hel")]
               ++ {| paused := true; now := 1020; chunk := onlyContent "lo" |}
               :: [arrive 1030 (onlyFinish None)])) 0
  = processStream sampleRequest quietSdk 1 (started sampleRequest)
      (Streamed [arrive 1010 (onlyContent "Hel")]) 0.
Proof.
  apply (pause_ends_the_stream_early sampleRequest quietSdk 1 (started sampleRequest)
           [arrive 1010 (onlyContent "Hel")]
           {| paused := true; now := 1020; chunk := onlyContent "lo" |}
           [arrive 1030 (onlyFinish None)] 0).
  reflexivity.
Defined.

Lemma no_tool_loop_without_streaming_witness :
  streamOutput wholeRequest = false
  ∧ ∃ s' metrics,
      processStream wholeRequest wholeSdk 1 (started wholeRequest) (Whole 2000 wholeCompletion) 0
      = Finished s'
      ∧ sent s' = [ LLM_RESPONSE_CREATED; TEXT_COMPLETE "call";
                    BLOCK_COMPLETE (Some (usageOf 7)) metrics ].
Proof.
  split; [reflexivity|].
  destruct (no_tool_loop_without_streaming wholeRequest wholeSdk 0 (started wholeRequest) 2000
              wholeCompletion 0 eq_refl) as [_ Hsome].
  destruct (Hsome _ _ eq_refl) as (s' & metrics & Hf & Hs & _).
  by exists s', metrics.
Defined.

Lemma no_text_complete_without_finish_reason_witness :
  ∃ new,
    sent (consume sampleRequest quietSdk
            [arrive 1010 (onlyReasoning "plan"); arrive 1020 (onlyContent "Hel")]
            (started sampleRequest, newFrame)).1
    = sent (started sampleRequest) ++ new
    ∧ Forall streamingOnly new.
Proof.
  apply (no_text_complete_without_finish_reason sampleRequest quietSdk 0
           (started sampleRequest)
           [arrive 1010 (onlyReasoning "plan"); arrive 1020 (onlyContent "Hel")] 0).
  - reflexivity.
  - repeat constructor.
Defined.

Lemma block_completes_share_first_token_time_witness :
  ∃ s', completions sampleRequest twoRoundSdk 2 = Finished s'
        ∧ Forall (λ t, t = time_first_token_millsec_delta s') (firstTokenMetrics (sent s')).
Proof.
  eexists. split; [vm_compute; reflexivity|].
  apply (block_completes_share_first_token_time sampleRequest twoRoundSdk 2).
  vm_compute. reflexivity.
Defined.

Lemma transcript_is_append_only_witness :
  reqMessages (started sampleRequest)
    `prefix_of` reqMessages
                  (outcomeClosure
                     (processStream sampleRequest twoRoundSdk 2 (started sampleRequest)
                        (Streamed (twoRounds [toolMessage "hi"])) 0)).
Proof.
  apply (transcript_is_append_only sampleRequest twoRoundSdk 2 (started sampleRequest)
           (Streamed (twoRounds [toolMessage "hi"])) 0).
  vm_compute. discriminate.
Defined.

(** X12. [check] never answers valid together with an error, nor invalid
    without one; and an exception raised by the request is handed back as the
    error of an invalid result, in both modes. *)
Theorem check_valid_iff_no_error (m : option Model) (stream : bool)
    (whole : Settled (option ChatCompletion))
    (streamed : Settled (list ChatCompletionChunk)) :
  (valid (check m stream whole streamed) = true
   ↔ error (check m stream whole streamed) = None)
  ∧ ∀ m' e,
      check (Some m') false (Rejected e) streamed = {| valid := false; error := Some e |}
      ∧ check (Some m') true whole (Rejected e) = {| valid := false; error := Some e |}.
Proof.
  split; [|done].
  unfold check. destruct m as [m|]; [|done].
  destruct stream; simpl.
  - destruct streamed as [chunks|e]; [|done]. by case_match.
  - destruct whole as [[r|]|e]; [|done..].
    destruct (choices r) as [|first rest]; [done|]. by destruct (message first).
Qed.

End CompletionsMore.

(** ** The formatting helpers *)

Module FormatsFacts.

Import Stdlib.Strings.Ascii.
Import ModelMessageService Formats.

(** The index loop is the structural reading. *)
Lemma escapeLoop_from (text : list ascii) : ∀ pre acc,
  foldl (escapeStep (pre ++ text)) acc (seq (length pre) (length text))
  = acc ++ escapedFrom text.
Proof.
  induction text as [|c rest IH]; intros pre acc; simpl.
  { by rewrite app_nil_r. }
  unfold escapeStep at 2.
  rewrite (list_lookup_middle pre rest c (length pre)) by done.
  replace ((pre ++ c :: rest) !! (length pre + 1)%nat) with (head rest).
  2:{ rewrite lookup_app_r by lia.
      replace (length pre + 1 - length pre)%nat with 1%nat by lia. by destruct rest. }
  rewrite (cons_middle c pre rest), app_assoc.
  replace (S (length pre)) with (length (pre ++ [c])) by (rewrite length_app; simpl; lia).
  rewrite IH. by rewrite <- app_assoc.
Qed.

Lemma escapeDollarNumber_escapedFrom text : escapeDollarNumber text = escapedFrom text.
Proof. exact (escapeLoop_from text [] []). Qed.

Lemma isDigit_backslash : isDigit backslash = false.
Proof. reflexivity. Qed.

Lemma isDigit_dollar : isDigit dollar = false.
Proof. reflexivity. Qed.

Lemma eqb_dollar c : Ascii.eqb c dollar = true ↔ c = dollar.
Proof. apply Ascii.eqb_eq. Qed.

(** Whether a digit comes first is the same before and after escaping. *)
Lemma escapedFrom_head_digit text :
  isDigit (default space (head (escapedFrom text))) = isDigit (default space (head text)).
Proof.
  destruct text as [|c rest]; [done|]. simpl.
  destruct (Ascii.eqb c dollar && isDigit (default space (head rest))) eqn:Hc; [|done].
  apply andb_true_iff in Hc as [->%eqb_dollar _]. done.
Qed.

Lemma escapedFrom_sublist text : text `sublist_of` escapedFrom text.
Proof.
  induction text as [|c rest IH]; [done|]. simpl.
  destruct (Ascii.eqb c dollar && isDigit (default space (head rest))) eqn:Hc; simpl.
  - apply andb_true_iff in Hc as [->%eqb_dollar _].
    by apply sublist_cons, sublist_skip.
  - by apply sublist_skip.
Qed.

Lemma escapedFrom_length text :
  length (escapedFrom text) = length text + dollarsBeforeDigit text.
Proof.
  induction text as [|c rest IH]; [done|]. simpl.
  destruct (Ascii.eqb c dollar && isDigit (default space (head rest))); simpl; lia.
Qed.

Lemma escapedFrom_dollars text :
  dollarsBeforeDigit (escapedFrom text) = dollarsBeforeDigit text.
Proof.
  induction text as [|c rest IH]; [done|]. simpl.
  destruct (Ascii.eqb c dollar && isDigit (default space (head rest))) eqn:Hc; simpl.
  - rewrite escapedFrom_head_digit, IH.
    apply andb_true_iff in Hc as [_ ->]. done.
  - rewrite escapedFrom_head_digit, IH, Hc. done.
Qed.

Lemma escapedFrom_none text : dollarsBeforeDigit text = 0 → escapedFrom text = text.
Proof.
  induction text as [|c rest IH]; [done|]. simpl.
  destruct (Ascii.eqb c dollar && isDigit (default space (head rest))); simpl; [lia|].
  intros H. by rewrite IH.
Qed.

(** X13. [escapeDollarNumber] only adds backslashes: the text is a
    subsequence of the result, the result is longer by the number of dollars
    that a digit follows, both are the same once the backslashes are taken
    out, and a text without such a dollar comes back unchanged (and only such
    a text). *)
Theorem escapeDollarNumber_only_adds_backslashes (text : list ascii) :
  text `sublist_of` escapeDollarNumber text
  ∧ length (escapeDollarNumber text) = length text + dollarsBeforeDigit text
  ∧ filter (λ c, c ≠ backslash) (escapeDollarNumber text) = filter (λ c, c ≠ backslash) text
  ∧ (escapeDollarNumber text = text ↔ dollarsBeforeDigit text = 0).
Proof.
  rewrite escapeDollarNumber_escapedFrom.
  split; [apply escapedFrom_sublist|]. split; [apply escapedFrom_length|]. split.
  - induction text as [|c rest IH]; [done|]. simpl.
    destruct (Ascii.eqb c dollar && isDigit (default space (head rest))) eqn:Hc; simpl.
    + apply andb_true_iff in Hc as [->%eqb_dollar _].
      rewrite filter_cons_False by (by intros []).
      rewrite !(filter_cons_True _ dollar) by done. by rewrite IH.
    + rewrite !filter_cons. by rewrite IH.
  - split; [|apply escapedFrom_none].
    intros Heq. pose proof (escapedFrom_length text) as Hlen. rewrite Heq in Hlen. lia.
Qed.

Lemma escapedFrom_guarded text : ∀ pre d post,
  escapedFrom text = pre ++ dollar :: d :: post → isDigit d = true →
  ∃ pre', pre = pre' ++ [backslash].
Proof.
  induction text as [|c rest IH]; intros pre d post Heq Hd.
  { by destruct pre. }
  simpl in Heq.
  destruct (Ascii.eqb c dollar && isDigit (default space (head rest))) eqn:Hc.
  - destruct pre as [|p1 [|p2 pre]]; simpl in Heq.
    + discriminate Heq.
    + injection Heq as <- _. by exists [].
    + injection Heq as <- <- Heq.
      destruct (IH _ _ _ Heq Hd) as [pre' ->]. by exists (backslash :: dollar :: pre').
  - destruct pre as [|p pre]; simpl in Heq.
    + injection Heq as -> Heq.
      pose proof (escapedFrom_head_digit rest) as Hh. rewrite Heq in Hh. simpl in Hh.
      rewrite Hd in Hh. rewrite <- Hh in Hc. by rewrite Ascii.eqb_refl in Hc.
    + injection Heq as <- Heq.
      destruct (IH _ _ _ Heq Hd) as [pre' ->]. by exists (c :: pre').
Qed.

(** X14. In the result of [escapeDollarNumber] every dollar that a digit
    follows has a backslash directly before it. *)
Theorem escaped_dollars_are_guarded (text pre post : list ascii) (d : ascii) :
  escapeDollarNumber text = pre ++ dollar :: d :: post →
  isDigit d = true →
  ∃ pre', pre = pre' ++ [backslash].
Proof. rewrite escapeDollarNumber_escapedFrom. apply escapedFrom_guarded. Qed.

Lemma escaped_dollars_are_guarded_witness :
  ∃ pre', ["a"%char; backslash] = pre' ++ [backslash].
Proof.
  apply (escaped_dollars_are_guarded ["a"%char; dollar; "1"%char] ["a"%char; backslash] []
           "1"%char); reflexivity.
Defined.

(** X15. [escapeDollarNumber] does not recognise its own output: the result
    has as many dollars followed by a digit as the text, so escaping it again
    puts one more backslash before each of them. *)
Theorem escapeDollarNumber_escapes_again (text : list ascii) :
  dollarsBeforeDigit (escapeDollarNumber text) = dollarsBeforeDigit text
  ∧ length (escapeDollarNumber (escapeDollarNumber text))
    = length text + 2 * dollarsBeforeDigit text.
Proof.
  rewrite !escapeDollarNumber_escapedFrom. split; [apply escapedFrom_dollars|].
  rewrite !escapedFrom_length, escapedFrom_dollars. lia.
Qed.

Lemma findLast_elem_of {A} (pred : A → bool) l a :
  findLast pred l = Some a → a ∈ l ∧ pred a = true.
Proof.
  unfold findLast. intros H%head_Some_elem_of.
  apply list_elem_of_filter in H as [? H]. rewrite elem_of_reverse in H. done.
Qed.

Lemma forallb_false_elem_of {A} (p : A → bool) l :
  forallb p l = false → ∃ x, x ∈ l ∧ p x = false.
Proof.
  induction l as [|x l IH]; [done|]. simpl.
  destruct (p x) eqn:Hx; simpl.
  - intros (y & ? & ?)%IH. exists y. split; [by right|done].
  - intros _. exists x. split; [by left|done].
Qed.

(** X16. [addImageFileToContents] keeps the number, the order and the ids
    of the messages; a message is returned as it was, or it has the id of
    the last assistant message and is replaced by that message with the
    images of its blocks; and the list changes only if the last assistant
    message has an image block with [generateImage] metadata. *)
Theorem addImageFileToContents_touches_one_id (messages : list Message) :
  message_id <$> addImageFileToContents messages = message_id <$> messages
  ∧ (∀ i m, messages !! i = Some m →
       addImageFileToContents messages !! i = Some m
       ∨ ∃ a, findLast (λ m, bool_decide (message_role m = assistant)) messages = Some a
              ∧ message_id m = message_id a
              ∧ addImageFileToContents messages !! i
                = Some (withImages a (flatImages (default [] (imageBlocks a)))))
  ∧ (addImageFileToContents messages ≠ messages →
       ∃ a blocks v,
         findLast (λ m, bool_decide (message_role m = assistant)) messages = Some a
         ∧ a ∈ messages ∧ message_role a = assistant
         ∧ imageBlocks a = Some blocks ∧ v ∈ blocks ∧ is_Some (generateImage v)).
Proof.
  unfold addImageFileToContents.
  destruct (findLast _ messages) as [a|] eqn:Hlast; [|by split; [|split; [left|]]].
  destruct (imageBlocks a) as [[|v0 blocks]|] eqn:Hblocks;
    [by split; [|split; [left|]]| |by split; [|split; [left|]]].
  destruct (forallb _ (v0 :: blocks)) eqn:Hall; [by split; [|split; [left|]]|].
  split; [|split].
  - rewrite <- list_fmap_compose. apply list_fmap_ext. intros i m _. simpl.
    destruct (String.eqb (message_id m) (message_id a)) eqn:Heq; [|done].
    by apply String.eqb_eq in Heq.
  - intros i m Hm. rewrite list_lookup_fmap, Hm. simpl.
    destruct (String.eqb (message_id m) (message_id a)) eqn:Heq; [|by left].
    right. exists a. apply String.eqb_eq in Heq. by rewrite Hblocks.
  - intros _. apply findLast_elem_of in Hlast as [Hin Hrole].
    apply bool_decide_eq_true in Hrole.
    apply forallb_false_elem_of in Hall as (v & Hv & Hgen).
    exists a, (v0 :: blocks), v. repeat split; try done.
    apply negb_false_iff, bool_decide_eq_true in Hgen. done.
Qed.

End FormatsFacts.

(** ** The knowledge queue *)

Module KnowledgeQueueFacts.

Import KnowledgeQueue.
Open Scope Z_scope.

(** X17. With [MAX_RETRIES = 1] a failed item is not taken up again: an
    item that carries the status and the retry count of the update
    dispatched in the [catch] block of [processItem] is not processable for
    [checkAllBases] and [findProcessableItem], and [processItem] would skip
    it (the retry count of the item being missing or not negative). *)
Theorem failed_item_is_not_retried (item : KnowledgeItem) :
  0 ≤ default 0 (retryCount item) →
  isProcessable (updated item (failureUpdate item)) = false
  ∧ reachedMaxRetries (updated item (failureUpdate item)) = true.
Proof.
  intros Hk. unfold isProcessable, reachedMaxRetries, updated, failureUpdate, nextRetryCount,
    truthyNumber, MAX_RETRIES. simpl.
  destruct (retryCount item) as [k|]; simpl in *; [|done].
  destruct (k =? 0) eqn:Hz; simpl; [done|].
  apply Z.eqb_neq in Hz.
  rewrite (proj2 (Z.eqb_neq (k + 1) 0)) by lia. simpl.
  rewrite (proj2 (Z.ltb_ge (k + 1) 1)) by lia.
  rewrite (proj2 (Z.leb_le 1 (k + 1))) by lia. done.
Qed.

Lemma failed_item_is_not_retried_witness :
  isProcessable
    (updated {| item_id := "a"; processingStatus := Some pending; retryCount := None |}
       (failureUpdate {| item_id := "a"; processingStatus := Some pending;
                         retryCount := None |})) = false.
Proof.
  apply (failed_item_is_not_retried
           {| item_id := "a"; processingStatus := Some pending; retryCount := None |}).
  simpl. lia.
Defined.

(** X18. The items that the queue takes up but [processItem] skips without
    dispatching any update are exactly the pending items with a retry count
    of at least [MAX_RETRIES]; a failed item that is taken up is never
    skipped. *)
Theorem taken_up_but_skipped (item : KnowledgeItem) :
  isProcessable item = true ∧ startUpdate item = None
  ↔ processingStatus item = Some pending ∧ ∃ k, retryCount item = Some k ∧ 1 ≤ k.
Proof.
  unfold isProcessable, startUpdate, reachedMaxRetries, truthyNumber, MAX_RETRIES.
  destruct (retryCount item) as [k|]; simpl.
  - destruct (k =? 0) eqn:Hz; simpl.
    + apply Z.eqb_eq in Hz as ->. split; [by intros [_ ?]|]. intros (_ & k & [= <-] & ?). lia.
    + apply Z.eqb_neq in Hz. destruct (1 <=? k) eqn:Hle.
      * apply Z.leb_le in Hle. rewrite (proj2 (Z.ltb_ge k 1)) by lia.
        case_bool_decide as Hf; simpl.
        { split; [by intros [? _]|]. intros [Hp _]. congruence. }
        split.
        { intros [Hp%bool_decide_eq_true _]. split; [done|]. by exists k. }
        intros [Hp _]. split; [by apply bool_decide_eq_true|done].
      * split; [by intros [_ ?]|]. intros (_ & k' & [= <-] & ?).
        apply Z.leb_gt in Hle. lia.
  - split; [by intros [_ ?]|]. by intros (_ & k & ? & _).
Qed.

End KnowledgeQueueFacts.

(** ** Further methods of the provider *)

Module MethodsFacts.

Import ModelMessageService OpenAIProviderMethods.
Import OpenAIProviderFacts.
#[local] Arguments String.append !_ _ /.
Open Scope Z_scope.

Section Files.

Variable readFile : string → string.
Variable trim : string → string.
Variable base64Image : string → string.

Lemma imageParts_none (blocks : list ImageMessageBlock) :
  blocks ≫= imagePart base64Image false = [].
Proof. induction blocks as [|b blocks IH]; [done|]. by rewrite bind_cons, IH. Qed.

Lemma fileParts_text (blocks : list FileBlock) :
  Forall (λ part, isImagePart part = false) (blocks ≫= filePart readFile trim).
Proof.
  induction blocks as [|b blocks IH]; [done|]. rewrite bind_cons.
  apply Forall_app. split; [|done]. unfold filePart.
  destruct (block_file b) as [file|]; [|done].
  destruct (isTextual (file_type file)); by repeat constructor.
Qed.

(** X19. [getMessageParam] never returns the role system (it becomes user)
    and keeps every other role; for a provider that does not support files
    the content is always one string; and for a model without vision no
    image part is sent. *)
Theorem getMessageParam_never_system (p : Provider) (isVision : bool) (m : MessageView) :
  role (getMessageParam readFile trim base64Image p isVision m) ≠ system
  ∧ (view_role m ≠ system →
     role (getMessageParam readFile trim base64Image p isVision m) = view_role m)
  ∧ (isNotSupportFiles p = true →
     ∃ text, ModelMessageService.content
               (getMessageParam readFile trim base64Image p isVision m) = Text text)
  ∧ (isVision = false →
     ∀ parts,
       ModelMessageService.content (getMessageParam readFile trim base64Image p isVision m)
       = Parts parts →
       Forall (λ part, isImagePart part = false) parts).
Proof.
  assert (Hrole : remappedRole (view_role m) ≠ system
                  ∧ (view_role m ≠ system → remappedRole (view_role m) = view_role m)).
  { unfold remappedRole. case_bool_decide; [by split|by split]. }
  unfold getMessageParam.
  destruct (bool_decide (fileBlocks m = []) && bool_decide (imageBlocks m = [])); simpl.
  { destruct Hrole. repeat split; try done. by eexists. }
  destruct (isNotSupportFiles p); simpl.
  { destruct Hrole. repeat split; try done. by eexists. }
  destruct Hrole. repeat split; try done.
  intros -> parts [= <-]. rewrite imageParts_none. simpl.
  apply Forall_app. split; [|apply fileParts_text].
  case_match; by repeat constructor.
Qed.

End Files.

(** X20. When [getReasoningEffort] enables Claude thinking, the budget is at
    least 1024 and at most the larger of 1024 and the computed budget; with
    a [maxTokens] setting (other than 0) it is at most the larger of 1024 and
    [maxTokens], so for a [maxTokens] below 1024 it is 1024, more than
    [maxTokens]. This happens only for a Claude thinking model with a
    reasoning effort set, and never for a model of the provider openrouter. *)
Theorem claude_budget_is_at_least_1024 (preds : ModelPredicates) (providerId : string)
    (m : Model) (reasoningEffort : option string) (budgetTokens : Z) (maxTokens : option Z)
    (budget : Z) :
  getReasoningEffort preds providerId m reasoningEffort budgetTokens maxTokens
  = ThinkingEnabled budget →
  1024 ≤ budget
  ∧ budget ≤ Z.max 1024 budgetTokens
  ∧ (∀ k, maxTokens = Some k → k ≠ 0 → budget ≤ Z.max 1024 k ∧ (k < 1024 → budget = 1024))
  ∧ isSupportedThinkingTokenClaudeModel preds m = true
  ∧ Js.truthy reasoningEffort = true
  ∧ provider m ≠ "openrouter".
Proof.
  unfold getReasoningEffort. intros H.
  destruct (String.eqb providerId "groq"); [done|].
  destruct (isReasoningModel preds m); simpl in H; [|done].
  destruct (Js.truthy reasoningEffort); simpl in H; [|by repeat case_match].
  destruct (isSupportedThinkingTokenClaudeModel preds m); [|by repeat case_match].
  destruct (String.eqb (provider m) "openrouter") eqn:Hp; simpl in H;
    [by rewrite orb_true_r in H|].
  apply String.eqb_neq in Hp.
  destruct (isSupportedThinkingTokenQwenModel preds m); [done|].
  destruct (isSupportedReasoningEffortGrokModel preds m); [done|].
  destruct (isSupportedReasoningEffortOpenAIModel preds m); [done|].
  injection H as <-. unfold DEFAULT_MAX_TOKENS.
  split; [lia|]. split; [lia|]. split; [|done].
  intros k -> Hk. rewrite (proj2 (Z.eqb_neq k 0)) by done. lia.
Qed.

Lemma claude_budget_is_at_least_1024_witness :
  1024 ≤ 1024
  ∧ getReasoningEffort claudePredicates "anthropic" claudeModel (Some "high") 20000 (Some 512)
    = ThinkingEnabled 1024.
Proof.
  split; [|reflexivity].
  apply (claude_budget_is_at_least_1024 claudePredicates "anthropic" claudeModel
           (Some "high") 20000 (Some 512) 1024).
  reflexivity.
Defined.


Lemma progressCalls_cons text d deltas :
  progressCalls text (d :: deltas)
  = (String.append text d, false) :: progressCalls (String.append text d) deltas.
Proof.
  unfold progressCalls. cbn [length seq]. rewrite fmap_cons. f_equal.
  { cbn [take joined foldr]. by rewrite append_nil_r. }
  rewrite <- fmap_S_seq, <- list_fmap_compose. apply list_fmap_ext. intros i k _.
  cbn [compose take]. change (joined (d :: take k deltas))
    with (String.append d (joined (take k deltas))).
  by rewrite append_assoc.
Qed.

Lemma progressCalls_length text deltas : length (progressCalls text deltas) = length deltas.
Proof. unfold progressCalls. by rewrite length_fmap, length_seq. Qed.

Lemma progressCalls_false text deltas : Forall (λ c, c.2 = false) (progressCalls text deltas).
Proof. unfold progressCalls. apply Forall_fmap, Forall_forall. done. Qed.

(** The loop of a model that is not a reasoning model appends every delta. *)
Lemma translate_plain chunks : ∀ t,
  foldl (translateChunk false) t chunks
  = {| text := String.append (text t) (joined (deltaContentOf <$> chunks));
       isThinking := isThinking t;
       responses := responses t ++ progressCalls (text t) (deltaContentOf <$> chunks) |}.
Proof.
  induction chunks as [|c chunks IH]; intros [txt th rs].
  { cbn [foldl fmap list_fmap joined foldr text isThinking responses progressCalls
         length seq]. by rewrite append_nil_r, app_nil_r. }
  cbn [foldl]. rewrite IH. unfold translateChunk. cbn [text isThinking responses].
  rewrite fmap_cons, progressCalls_cons, <- app_assoc.
  change (joined (deltaContentOf c :: (deltaContentOf <$> chunks)))
    with (String.append (deltaContentOf c) (joined (deltaContentOf <$> chunks))).
  by rewrite append_assoc.
Qed.

(** Outside a thinking block, and as long as no chunk opens one, a reasoning
    model is treated like any other. *)
Lemma translate_outside chunks : ∀ t,
  isThinking t = false → Forall (λ c, opensThinking c = false) chunks →
  foldl (translateChunk true) t chunks = foldl (translateChunk false) t chunks.
Proof.
  induction chunks as [|c chunks IH]; intros [txt th rs] Ht Hall; [done|].
  apply Forall_cons in Hall as [Hc Hall]. cbn [isThinking] in Ht. subst th.
  cbn [foldl].
  assert (Hstep : translateChunk true {| text := txt; isThinking := false; responses := rs |} c
                  = translateChunk false
                      {| text := txt; isThinking := false; responses := rs |} c).
  { unfold translateChunk. unfold opensThinking in Hc. rewrite Hc.
    cbn [isThinking negb text responses]. by destruct (Js.includes "</think>" _). }
  rewrite Hstep. by apply IH.
Qed.


Lemma translate_streamed hasOnResponse m isReasoning whole chunks :
  translateStreams hasOnResponse m = true →
  translate hasOnResponse m isReasoning whole chunks
  = Returned
      (responses (foldl (translateChunk isReasoning)
                    {| text := ""; isThinking := false; responses := [] |} chunks)
       ++ [(text (foldl (translateChunk isReasoning)
                    {| text := ""; isThinking := false; responses := [] |} chunks), true)])
      (text (foldl (translateChunk isReasoning)
               {| text := ""; isThinking := false; responses := [] |} chunks)).
Proof. unfold translate. by intros ->. Qed.

Lemma translateStreams_true m :
  isOpenAIReasoning m = false → translateStreams true m = true.
Proof. unfold translateStreams. by intros ->. Qed.

(** X21. [translate] with a callback, for a model that is not an OpenAI
    reasoning model: if the model is no reasoning model, or no chunk contains
    '<think>', the result is the texts of all chunks joined, [onResponse] is
    called once per chunk with the text so far and [false], and once at the
    end with the result and [true]. *)
Theorem translate_streams_every_delta (m : Model) (isReasoning : bool)
    (whole : ChatCompletion) (chunks : list ChatCompletionChunk) :
  isOpenAIReasoning m = false →
  isReasoning = false ∨ Forall (λ c, opensThinking c = false) chunks →
  translate true m isReasoning whole chunks
  = Returned
      (progressCalls "" (deltaContentOf <$> chunks)
       ++ [(joined (deltaContentOf <$> chunks), true)])
      (joined (deltaContentOf <$> chunks)).
Proof.
  intros Hm Hplain. rewrite translate_streamed by by apply translateStreams_true.
  assert (Hfold : foldl (translateChunk isReasoning)
                    {| text := ""; isThinking := false; responses := [] |} chunks
                  = foldl (translateChunk false)
                      {| text := ""; isThinking := false; responses := [] |} chunks).
  { destruct Hplain as [->|Hall]; [done|].
    destruct isReasoning; [|done]. by apply translate_outside. }
  rewrite Hfold, translate_plain. done.
Qed.

Lemma translate_streams_every_delta_witness :
  translate true claudeModel false wholeCompletion [onlyContent "Bon"; onlyContent "jour"]
  = Returned [("Bon", false); ("Bonjour", false); ("Bonjour", true)] "Bonjour".
Proof.
  apply (translate_streams_every_delta claudeModel false wholeCompletion
           [onlyContent "Bon"; onlyContent "jour"]).
  - reflexivity.
  - left. reflexivity.
Defined.



Lemma translateChunk_responses b chunks : ∀ t,
  ∃ new, responses (foldl (translateChunk b) t chunks) = responses t ++ new
         ∧ Forall (λ c, c.2 = false) new
         ∧ (length new ≤ length chunks)%nat.
Proof.
  induction chunks as [|c chunks IH]; intros t.
  { exists []. by rewrite app_nil_r. }
  cbn [foldl]. destruct (IH (translateChunk b t c)) as (new & -> & Hnew & Hlen).
  assert (Hstep : ∃ one, responses (translateChunk b t c) = responses t ++ one
                         ∧ Forall (λ c, c.2 = false) one ∧ (length one ≤ 1)%nat).
  { unfold translateChunk. destruct b; [|eexists [_]; by repeat constructor].
    destruct (negb _); cbn [responses];
      first [by exists []; rewrite app_nil_r; repeat constructor
            |eexists [_]; by repeat constructor]. }
  destruct Hstep as (one & -> & Hone & Hlen1).
  exists (one ++ new). rewrite <- app_assoc. split; [done|]. split; [by apply Forall_app|].
  rewrite length_app. simpl. lia.
Qed.

(** X23. Whenever [translate] returns: with a callback and a model that is
    not an OpenAI reasoning model, [onResponse] is called with [true] exactly
    once, as the last call and with the returned text, after at most one
    call with [false] per chunk; without a callback, or for an OpenAI
    reasoning model (o1, o3, o4), it is never called. *)
Theorem translate_completes_once (hasOnResponse : bool) (m : Model) (isReasoning : bool)
    (whole : ChatCompletion) (chunks : list ChatCompletionChunk)
    (calls : list (string * bool)) (result : string) :
  translate hasOnResponse m isReasoning whole chunks = Returned calls result →
  if hasOnResponse && negb (isOpenAIReasoning m)
  then ∃ progress, calls = progress ++ [(result, true)]
                   ∧ Forall (λ c, c.2 = false) progress
                   ∧ (length progress ≤ length chunks)%nat
  else calls = [].
Proof.
  unfold translate, translateStreams.
  destruct hasOnResponse; cbn [negb andb].
  - destruct (isOpenAIReasoning m); cbn [negb].
    + destruct (choices whole); [done|]. by intros [= <- _].
    + intros [= <- <-].
      destruct (translateChunk_responses isReasoning chunks
                  {| text := ""; isThinking := false; responses := [] |})
        as (new & Hr & Hnew & Hlen).
      exists new. by rewrite Hr.
  - destruct (choices whole); [done|]. by intros [= <- _].
Qed.

Lemma translate_completes_once_witness :
  ∃ progress,
    [("Bon", false); ("Bonjour", false); ("Bonjour", true)] = progress ++ [("Bonjour", true)]
    ∧ Forall (λ c, c.2 = false) progress
    ∧ (length progress ≤ 2)%nat.
Proof.
  apply (translate_completes_once true claudeModel false wholeCompletion
           [onlyContent "Bon"; onlyContent "jour"]
           [("Bon", false); ("Bonjour", false); ("Bonjour", true)] "Bonjour").
  reflexivity.
Defined.

End MethodsFacts.
